(** * problemo.solverwrap: wrappers around several sparse system solvers

    A shallow embedding of [problemo/solverwrap.py] and the properties of
    its registry of backends, of the lazily cached factorization handle and
    of the column-by-column batch solve.

    The three solver libraries (pymatsolver, pyMKL, scipy's splu) are
    external: their entry points are parameters of the development, every
    call to them is recorded in a trace, and each call may raise. *)

From stdpp Require Import gmap strings list fin_maps.

Open Scope string_scope.
Open Scope list_scope.
Open Scope nat_scope.

(** Is [s] found somewhere inside [t]? *)
Fixpoint is_prefix (s t : string) : bool :=
  match s, t with
  | EmptyString, _ => true
  | String a s', String b t' => if decide (a = b) then is_prefix s' t' else false
  | String _ _, EmptyString => false
  end.

Fixpoint is_infix (s t : string) : bool :=
  is_prefix s t ||
  match t with
  | EmptyString => false
  | String _ t' => is_infix s t'
  end.

(** ** Exceptions and results *)

Inductive exception : Type :=
  | ImportError (msg : string)
  | SyntaxError
  | Exception (msg : string)
  | TypeError (msg : string)
  | NotImplementedError
  | ValueError (msg : string)
  | IndexError
  | KeyError (key : string)
  | NativeError (code : Z).

Inductive result (X : Type) : Type :=
  | Ok (x : X)
  | Raise (e : exception).
Arguments Ok {X} x.
Arguments Raise {X} e.

(** ** The adapter classes and the libraries behind them *)

Inductive adapter_class : Type :=
  | BaseSolver
  | MumpsSolver
  | MKLPardisoSolver
  | SuperLUSolver.

#[global] Instance adapter_class_eq_dec : EqDecision adapter_class.
Proof. solve_decision. Defined.

(** [self.__class__.__name__] *)
Definition class_name (c : adapter_class) : string :=
  match c with
  | BaseSolver => "BaseSolver"
  | MumpsSolver => "MumpsSolver"
  | MKLPardisoSolver => "MKLPardisoSolver"
  | SuperLUSolver => "SuperLUSolver"
  end.

(** The callables bound by the three guarded imports. *)
Inductive library : Type :=
  | pymatsolver_MumpsSolver
  | pyMKL_pardisoSolver
  | scipy_splu.

#[global] Instance library_eq_dec : EqDecision library.
Proof. solve_decision. Defined.

(** ** Module initialisation (lines 4 to 40 and 132 to 175) *)

Module Registry.

(** What an [import] statement does in the running interpreter. *)
Inductive import_outcome : Type :=
  | Imported
  | ImportRaises (e : exception).

Record environment : Type := {
  (** lines 4-11: future, builtins, numpy, scipy.sparse, scipy.sparse.linalg *)
  env_prelude : import_outcome;
  (** [from pymatsolver import MumpsSolver] *)
  env_pymatsolver : import_outcome;
  (** [from pyMKL import pardisoSolver] *)
  env_pyMKL : import_outcome;
  (** [from scipy.sparse.linalg import splu] *)
  env_splu : import_outcome
}.

(** The names the module binds at top level. *)
Record module : Type := {
  DefaultSolver : option adapter_class;
  active : list string;
  solvers : gmap string adapter_class;
  _MumpsSolver : option library;
  _MKLPardisoSolver : option library;
  _SuperLUSolver : option library;
  BestSolver : adapter_class
}.

(** [try: import ... except (ImportError, SyntaxError): name = None
    else: active.append(id)] *)
Definition probe_mumps (o : import_outcome) (act : list string)
  : result (option library * list string) :=
  match o with
  | Imported => Ok (Some pymatsolver_MumpsSolver, act ++ ["mumps"])
  | ImportRaises (ImportError _) => Ok (None, act)
  | ImportRaises SyntaxError => Ok (None, act)
  | ImportRaises e => Raise e
  end.

(** [try: import ... except ImportError: name = None
    else: active.append(id)] *)
Definition probe (o : import_outcome) (lib : library) (id : string)
    (act : list string) : result (option library * list string) :=
  match o with
  | Imported => Ok (Some lib, act ++ [id])
  | ImportRaises (ImportError _) => Ok (None, act)
  | ImportRaises e => Raise e
  end.

(** [solvers[active[0]]] *)
Definition best_of (act : list string) (slv : gmap string adapter_class)
  : result adapter_class :=
  match act with
  | [] => Raise IndexError
  | id :: _ =>
      match slv !! id with
      | Some c => Ok c
      | None => Raise (KeyError id)
      end
  end.

Definition load_module (env : environment) : result module :=
  match env_prelude env with
  | ImportRaises e => Raise e
  | Imported =>
    let active0 : list string := [] in
    let solvers0 : gmap string adapter_class := ∅ in
    match probe_mumps (env_pymatsolver env) active0 with
    | Raise e => Raise e
    | Ok (mumps, active1) =>
      match probe (env_pyMKL env) pyMKL_pardisoSolver "mklpardiso" active1 with
      | Raise e => Raise e
      | Ok (pardiso, active2) =>
        match probe (env_splu env) scipy_splu "splu" active2 with
        | Raise e => Raise e
        | Ok (superlu, active3) =>
          match active3 with
          | [] => Raise (ImportError "Problemo: could not load backend")
          | _ :: _ =>
            let solvers1 := <["mumps" := MumpsSolver]> solvers0 in
            let solvers2 := <["mklpardiso" := MKLPardisoSolver]> solvers1 in
            let solvers3 := <["splu" := SuperLUSolver]> solvers2 in
            match best_of active3 solvers3 with
            | Raise e => Raise e
            | Ok best =>
              Ok {| DefaultSolver := None;
                    active := active3;
                    solvers := solvers3;
                    _MumpsSolver := mumps;
                    _MKLPardisoSolver := pardiso;
                    _SuperLUSolver := superlu;
                    BestSolver := best |}
            end
          end
        end
      end
    end
  end.

(** The class attribute [Solver] of each adapter class. *)
Definition Solver (m : module) (c : adapter_class) : option library :=
  match c with
  | BaseSolver => None
  | MumpsSolver => _MumpsSolver m
  | MKLPardisoSolver => _MKLPardisoSolver m
  | SuperLUSolver => _SuperLUSolver m
  end.

(** *** Vocabulary of the specification *)

(** The fixed priority order of the identifiers. *)
Definition priority_order : list string := ["mumps"; "mklpardiso"; "splu"].

(** The adapter class written for an identifier. *)
Definition adapter_of (id : string) : option adapter_class :=
  if decide (id = "mumps") then Some MumpsSolver
  else if decide (id = "mklpardiso") then Some MKLPardisoSolver
  else if decide (id = "splu") then Some SuperLUSolver
  else None.

Definition loaded (o : import_outcome) : bool :=
  match o with Imported => true | ImportRaises _ => false end.

(** An identifier is available when its library loaded. *)
Definition available (env : environment) (id : string) : bool :=
  if decide (id = "mumps") then loaded (env_pymatsolver env)
  else if decide (id = "mklpardiso") then loaded (env_pyMKL env)
  else if decide (id = "splu") then loaded (env_splu env)
  else false.

(** The mapping holds exactly the available identifiers. *)
Definition solvers_exactly_available (env : environment) (m : module) : Prop :=
  ∀ id, is_Some (solvers m !! id) ↔ available env id = true.

End Registry.

(** ** Arrays

    Entries are kept abstract: [C] stands for the values a [complex128]
    array holds, [zero] for the entry a sparse matrix does not store. *)

Class Scalar (C : Type) : Type := { zero : C }.

(** A one-dimensional [numpy.ndarray]. *)
Definition vector (C : Type) : Type := list C.

(** A two-dimensional [numpy.ndarray], row by row. *)
Record ndarray (C : Type) : Type := {
  nd_shape : nat * nat;
  nd_rows : list (list C)
}.
Arguments nd_shape {C} _.
Arguments nd_rows {C} _.
Arguments Build_ndarray {C} _ _.

(** A [scipy.sparse.spmatrix], as its dictionary of stored entries. *)
Record spmatrix (C : Type) : Type := {
  sp_shape : nat * nat;
  sp_data : gmap (nat * nat) C
}.
Arguments sp_shape {C} _.
Arguments sp_data {C} _.
Arguments Build_spmatrix {C} _ _.

(** What [__mul__] is given: a sparse or a dense batch of columns. *)
Inductive batch (C : Type) : Type :=
  | Sparse (qs : spmatrix C)
  | Dense (qs : ndarray C).
Arguments Sparse {C} qs.
Arguments Dense {C} qs.

(** What the setter of [A] is given. *)
Inductive pyval (C : Type) : Type :=
  | PyNone
  | PyArray (a : batch C)
  | PyObject (tyname : string).
Arguments PyNone {C}.
Arguments PyArray {C} a.
Arguments PyObject {C} tyname.

(** [type(v).__name__] *)
Definition type_name {C} (v : pyval C) : string :=
  match v with
  | PyNone => "NoneType"
  | PyArray (Sparse _) => "dok_matrix"
  | PyArray (Dense _) => "ndarray"
  | PyObject t => t
  end.

(** [isinstance(v, scipy.sparse.spmatrix)] *)
Definition is_spmatrix {C} (v : pyval C) : bool :=
  match v with PyArray (Sparse _) => true | _ => false end.

Definition wf_ndarray {C} (a : ndarray C) : Prop :=
  length (nd_rows a) = (nd_shape a).1 ∧
  Forall (λ row, length row = (nd_shape a).2) (nd_rows a).

Definition batch_shape {C} (rhs : batch C) : nat * nat :=
  match rhs with
  | Sparse qs => sp_shape qs
  | Dense qs => nd_shape qs
  end.

Section Arrays.
Context {C : Type} {SC : Scalar C}.

(** [A.T] *)
Definition transpose (A : spmatrix C) : spmatrix C :=
  {| sp_shape := prod_swap (sp_shape A);
     sp_data := kmap prod_swap (sp_data A) |}.

(** [qs.getcol(j)]: the stored entries of column [j], as an m-by-1 matrix. *)
Definition getcol (qs : spmatrix C) (j : nat) : spmatrix C :=
  {| sp_shape := ((sp_shape qs).1, 1);
     sp_data :=
       foldr (λ i acc,
                match sp_data qs !! (i, j) with
                | Some x => <[(i, 0) := x]> acc
                | None => acc
                end) ∅ (seq 0 (sp_shape qs).1) |}.

(** [qs.toarray()] *)
Definition toarray (qs : spmatrix C) : ndarray C :=
  {| nd_shape := sp_shape qs;
     nd_rows :=
       map (λ i, map (λ j, default zero (sp_data qs !! (i, j)))
                     (seq 0 (sp_shape qs).2))
           (seq 0 (sp_shape qs).1) |}.

(** [a.ravel()] *)
Definition ravel (a : ndarray C) : vector C := concat (nd_rows a).

(** [qs[:, j]], for [j] inside the array. *)
Definition column (qs : ndarray C) (j : nat) : vector C :=
  map (λ row, default zero (row !! j)) (nd_rows qs).

(** [np.empty(shape, dtype=np.complex128)]: whatever the memory holds. *)
Definition np_empty (uninit : nat → nat → C) (shape : nat * nat) : ndarray C :=
  {| nd_shape := shape;
     nd_rows := map (λ i, map (uninit i) (seq 0 shape.2)) (seq 0 shape.1) |}.

(** [result[:, i] = v] for a one-dimensional [v]: element by element when
    the lengths agree, a single entry is broadcast, anything else is
    refused by numpy. *)
Definition setcol (a : ndarray C) (i : nat) (v : vector C) : result (ndarray C) :=
  if decide (i < (nd_shape a).2) then
    if decide (length v = (nd_shape a).1) then
      Ok {| nd_shape := nd_shape a;
            nd_rows := zip_with (λ row x, <[i := x]> row) (nd_rows a) v |}
    else
      match v with
      | [x] => Ok {| nd_shape := nd_shape a;
                     nd_rows := map (λ row, <[i := x]> row) (nd_rows a) |}
      | _ => Raise (ValueError "could not broadcast input array")
      end
  else Raise IndexError.

(** The generator [qIter], as the list of what it yields. *)
Definition qIter (rhs : batch C) : list (vector C) :=
  match rhs with
  | Sparse qs =>
      map (λ j, ravel (toarray (getcol qs j))) (seq 0 (sp_shape qs).2)
  | Dense qs =>
      map (λ j, column qs j) (seq 0 (nd_shape qs).2)
  end.

(** [enumerate(l)] *)
Definition enumerate {X} (l : list X) : list (nat * X) :=
  zip (seq 0 (length l)) l.

End Arrays.

(** ** Adapter instances *)

Record instance (C Handle : Type) : Type := {
  cls : adapter_class;
  _A : option (spmatrix C);
  _Ainv : option Handle
}.
Arguments cls {C Handle} _.
Arguments _A {C Handle} _.
Arguments _Ainv {C Handle} _.
Arguments Build_instance {C Handle} _ _ _.

(** ** The solver libraries

    A call into one of the libraries is recorded with what it gave back.
    What a library answers may depend on every call made before. *)

(** What is found under [self.Solver]. [splu] is a function: looked up
    through an instance it comes bound to that instance, which is then the
    first argument of the call. [MumpsSolver] and [pardisoSolver] are
    classes and come as they are. *)
Definition binds_self (lib : library) : bool :=
  match lib with
  | scipy_splu => true
  | pymatsolver_MumpsSolver | pyMKL_pardisoSolver => false
  end.

(** A positional argument of a constructor call. *)
Inductive pyarg (C Handle : Type) : Type :=
  | ArgSelf (self : instance C Handle)
  | ArgMatrix (A : spmatrix C)
  | ArgInt (z : Z).
Arguments ArgSelf {C Handle} self.
Arguments ArgMatrix {C Handle} A.
Arguments ArgInt {C Handle} z.

Inductive call (C Handle : Type) : Type :=
  | Construct (lib : library) (args : list (pyarg C Handle))
  | HandleMul (h : Handle) (q : vector C)
  | RunPardiso (h : Handle) (phase : Z) (rhs : option (vector C))
  | HandleSolve (h : Handle) (q : vector C).
Arguments Construct {C Handle} lib args.
Arguments HandleMul {C Handle} h q.
Arguments RunPardiso {C Handle} h phase rhs.
Arguments HandleSolve {C Handle} h q.

Inductive returned (C Handle : Type) : Type :=
  | RetHandle (h : Handle)
  | RetVector (v : vector C)
  | Raised (e : exception).
Arguments RetHandle {C Handle} h.
Arguments RetVector {C Handle} v.
Arguments Raised {C Handle} e.

Definition event (C Handle : Type) : Type := call C Handle * returned C Handle.
Abbreviation trace C Handle := (list (event C Handle)) (only parsing).

Class Runtime (C Handle : Type) : Type := {
  (** the module, once loaded *)
  this_module : Registry.module;
  (** the contents of freshly allocated memory *)
  uninit : nat → nat → C;
  (** the call of what [self.Solver] gave, on its positional arguments *)
  lib_construct :
    trace C Handle → library → list (pyarg C Handle) → result Handle;
  (** [handle * q] (pymatsolver) *)
  lib_mul : trace C Handle → Handle → vector C → result (vector C);
  (** [handle.run_pardiso(phase)] and [handle.run_pardiso(phase, rhs)] (pyMKL) *)
  lib_run_pardiso :
    trace C Handle → Handle → Z → option (vector C) → result (vector C);
  (** [handle.solve(q)] (SuperLU) *)
  lib_solve : trace C Handle → Handle → vector C → result (vector C)
}.

(** ** States and methods *)

(** An instance together with the calls made so far. *)
Definition state (C Handle : Type) : Type := instance C Handle * trace C Handle.

(** A method: it may raise, and what it did before raising stays done. *)
Definition M (C Handle X : Type) : Type :=
  state C Handle → result X * state C Handle.

Section Monad.
Context {C Handle : Type}.

Definition ret {X} (x : X) : M C Handle X := λ st, (Ok x, st).

Definition raise {X} (e : exception) : M C Handle X := λ st, (Raise e, st).

Definition bind {X Y} (c : M C Handle X) (k : X → M C Handle Y) : M C Handle Y :=
  λ st, match c st with
        | (Ok x, st') => k x st'
        | (Raise e, st') => (Raise e, st')
        end.

Definition get_self : M C Handle (instance C Handle) := λ st, (Ok st.1, st).

Definition put_self (self : instance C Handle) : M C Handle unit :=
  λ st, (Ok tt, (self, st.2)).

Definition lift {X} (r : result X) : M C Handle X := λ st, (r, st).

(** A call into a library: ask, record, hand back. *)
Definition native {X} (c : call C Handle)
    (answer : trace C Handle → result X) (wrap : X → returned C Handle)
  : M C Handle X :=
  λ st,
    let r := answer st.2 in
    (r, (st.1, st.2 ++ [(c, match r with
                            | Ok x => wrap x
                            | Raise e => Raised e
                            end)])).

(** A method keeps a property of the state, whether it returns or raises. *)
Definition preserves {X} (P : state C Handle → Prop) (c : M C Handle X) : Prop :=
  ∀ st, P st → P (c st).2.

End Monad.

Notation "x <- c ;; k" := (bind c (λ x, k))
  (at level 100, c at next level, right associativity).
Notation "c ;;; k" := (bind c (λ _, k))
  (at level 100, right associativity).

Section Adapter.
Context {C Handle : Type} {SC : Scalar C} {RT : Runtime C Handle}.

Local Abbreviation M := (M C Handle).

Definition call_construct (lib : library) (args : list (pyarg C Handle))
  : M Handle :=
  native (Construct lib args) (λ tr, lib_construct tr lib args) RetHandle.

(** [self.Solver(args)]: the arguments the callable receives. *)
Definition bound_args (lib : library) (self : instance C Handle)
    (args : list (pyarg C Handle)) : list (pyarg C Handle) :=
  if binds_self lib then ArgSelf self :: args else args.

Definition call_mul (h : Handle) (q : vector C) : M (vector C) :=
  native (HandleMul h q) (λ tr, lib_mul tr h q) RetVector.

Definition call_run_pardiso (h : Handle) (phase : Z) (rhs : option (vector C))
  : M (vector C) :=
  native (RunPardiso h phase rhs) (λ tr, lib_run_pardiso tr h phase rhs) RetVector.

Definition call_solve (h : Handle) (q : vector C) : M (vector C) :=
  native (HandleSolve h q) (λ tr, lib_solve tr h q) RetVector.

(** The getter of [A] (lines 68-74). *)
Definition get_A : M (spmatrix C) :=
  self <- get_self ;;
  match _A self with
  | None => raise (Exception "System matrix has not been set")
  | Some A => ret A
  end.

(** The setter of [A] (lines 75-82). *)
Definition set_A (A : pyval C) : M unit :=
  self <- get_self ;;
  match A with
  | PyNone => ret tt
  | PyArray (Sparse A) =>
      put_self {| cls := cls self; _A := Some A; _Ainv := _Ainv self |}
  | _ =>
      raise (Exception ("Class " +:+ class_name (cls self)
                        +:+ " can only register SciPy sparse matrices"))
  end.

(** [cls(A)]: a new object, then [__init__] (lines 50-58). *)
Definition blank (c : adapter_class) : instance C Handle :=
  {| cls := c; _A := None; _Ainv := None |}.

Definition __init__ (A : pyval C) : M unit := set_A A.

Definition new (c : adapter_class) (A : pyval C) : result (instance C Handle) :=
  match __init__ A (blank c, []) with
  | (Ok _, st) => Ok st.1
  | (Raise e, _) => Raise e
  end.

(** [BaseSolver.Ainv] (lines 60-66). The argument [self.A] is evaluated
    before the call is attempted, and the class attribute may be [None]. *)
Definition Ainv_base : M Handle :=
  self <- get_self ;;
  match _Ainv self with
  | Some h => ret h
  | None =>
      A <- get_A ;;
      match Registry.Solver this_module (cls self) with
      | None => raise (TypeError "'NoneType' object is not callable")
      | Some lib =>
          h <- call_construct lib (bound_args lib self [ArgMatrix A]) ;;
          self <- get_self ;;
          put_self {| cls := cls self; _A := _A self; _Ainv := Some h |} ;;;
          ret h
      end
  end.

(** [MKLPardisoSolver.Ainv] (lines 142-149). *)
Definition Ainv_pardiso : M Handle :=
  self <- get_self ;;
  match _Ainv self with
  | Some h => ret h
  | None =>
      A <- get_A ;;
      match Registry.Solver this_module (cls self) with
      | None => raise (TypeError "'NoneType' object is not callable")
      | Some lib =>
          h <- call_construct lib
                 (bound_args lib self [ArgMatrix A; ArgInt 13]) ;;
          self <- get_self ;;
          put_self {| cls := cls self; _A := _A self; _Ainv := Some h |} ;;;
          call_run_pardiso h 12 None ;;;
          ret h
      end
  end.

(** Attribute lookup on the class of the instance. *)
Definition Ainv : M Handle :=
  self <- get_self ;;
  match cls self with
  | MKLPardisoSolver => Ainv_pardiso
  | _ => Ainv_base
  end.

(** [shape] (lines 84-86). *)
Definition shape : M (nat * nat) :=
  A <- get_A ;;
  ret (sp_shape (transpose A)).

(** What each class does with the handle in [_solve]. *)
Definition apply_handle (c : adapter_class) (h : Handle) (rhs : vector C)
  : M (vector C) :=
  match c with
  | BaseSolver => raise NotImplementedError
  | MumpsSolver => call_mul h rhs
  | MKLPardisoSolver => call_run_pardiso h 33 (Some rhs)
  | SuperLUSolver => call_solve h rhs
  end.

(** [_solve] (lines 118-119, 129-130, 151-152, 169-170). *)
Definition _solve (rhs : vector C) : M (vector C) :=
  self <- get_self ;;
  match cls self with
  | BaseSolver => raise NotImplementedError
  | c => h <- Ainv ;; apply_handle c h rhs
  end.

(** The loop of [__mul__] (lines 113-114). *)
Fixpoint mul_loop (iqs : list (nat * vector C)) (result : ndarray C)
  : M (ndarray C) :=
  match iqs with
  | [] => ret result
  | (i, q) :: rest =>
      v <- _solve q ;;
      result' <- lift (setcol result i v) ;;
      mul_loop rest result'
  end.

(** [__mul__] (lines 88-116). *)
Definition __mul__ (rhs : batch C) : M (ndarray C) :=
  let result := np_empty uninit (batch_shape rhs) in
  mul_loop (enumerate (qIter rhs)) result.

(** [MKLPardisoSolver.__del__] (lines 154-157); the other classes have none. *)
Definition __del__ : M unit :=
  self <- get_self ;;
  match cls self with
  | MKLPardisoSolver =>
      match _Ainv self with
      | Some h =>
          call_run_pardiso h (-1) None ;;;
          self <- get_self ;;
          put_self {| cls := cls self; _A := _A self; _Ainv := None |}
      | None => ret tt
      end
  | _ => ret tt
  end.

(** *** The life of an instance

    What a client may do with an instance, any number of times and in any
    order; an exception is caught by the client and the instance lives on.
    [Del] runs the finalizer, which only MKLPardisoSolver defines; an
    instance used after it builds its handle anew. *)

Inductive op : Type :=
  | SetA (A : pyval C)
  | GetA
  | GetShape
  | GetAinv
  | Mul (rhs : batch C)
  | Del.

Definition run_op (o : op) (st : state C Handle) : state C Handle :=
  match o with
  | SetA A => (set_A A st).2
  | GetA => (get_A st).2
  | GetShape => (shape st).2
  | GetAinv => (Ainv st).2
  | Mul rhs => (__mul__ rhs st).2
  | Del => (__del__ st).2
  end.

Definition run_ops (os : list op) (st : state C Handle) : state C Handle :=
  foldl (λ st o, run_op o st) st os.

(** *** Vocabulary of the specification *)

(** The single-vector solve applied to each vector in turn. *)
Fixpoint solve_each (qs : list (vector C)) : M (list (vector C)) :=
  match qs with
  | [] => ret []
  | q :: rest =>
      v <- _solve q ;;
      vs <- solve_each rest ;;
      ret (v :: vs)
  end.

(** The densified column [j] of a batch. *)
Definition batch_column (rhs : batch C) (j : nat) : vector C :=
  match rhs with
  | Sparse qs => map (λ i, default zero (sp_data qs !! (i, j))) (seq 0 (sp_shape qs).1)
  | Dense qs => column qs j
  end.

Definition is_construct (e : event C Handle) : bool :=
  match e.1 with Construct _ _ => true | _ => false end.

Definition has_raised (e : event C Handle) : bool :=
  match e.2 with Raised _ => true | _ => false end.

(** The calls of the factorization routine in a trace. *)
Definition constructions (tr : trace C Handle) : trace C Handle :=
  filter (λ e, is_construct e = true) tr.

(** The configuration error of the getter of [A]. *)
Definition not_set : exception := Exception "System matrix has not been set".

(** The error of the setter of [A] mentions the type of the value refused. *)
Definition names_type_of (v : pyval C) (r : result unit) : Prop :=
  ∃ msg, r = Raise (Exception msg) ∧ is_infix (type_name v) msg = true.

(** The arguments the callable under [self.Solver] receives when an
    adapter of class [c] builds its handle: the instance first where the
    callable comes bound, the matrix, and 13 for MKL PARDISO. *)
Definition construct_args (c : adapter_class) (lib : library)
    (self : instance C Handle) (A : spmatrix C) : list (pyarg C Handle) :=
  bound_args lib self
    (ArgMatrix A ::
     match c with MKLPardisoSolver => [ArgInt 13] | _ => [] end).

(** The calls of the release phase, [run_pardiso(-1)]. *)
Definition is_release (e : event C Handle) : bool :=
  match e.1 with
  | RunPardiso _ phase _ => bool_decide (phase = (-1)%Z)
  | _ => false
  end.

(** Every way an access to [Ainv] can go. *)
Inductive Ainv_outcome (st : state C Handle)
  : result Handle → state C Handle → Prop :=
  | Ainv_hit h :
      _Ainv st.1 = Some h →
      Ainv_outcome st (Ok h) st
  | Ainv_no_matrix :
      _Ainv st.1 = None → _A st.1 = None →
      Ainv_outcome st (Raise not_set) st
  | Ainv_no_library A :
      _Ainv st.1 = None → _A st.1 = Some A →
      Registry.Solver this_module (cls st.1) = None →
      Ainv_outcome st (Raise (TypeError "'NoneType' object is not callable")) st
  | Ainv_failed A lib e :
      _Ainv st.1 = None → _A st.1 = Some A →
      Registry.Solver this_module (cls st.1) = Some lib →
      lib_construct st.2 lib (construct_args (cls st.1) lib st.1 A) = Raise e →
      Ainv_outcome st (Raise e)
        (st.1, st.2 ++ [(Construct lib (construct_args (cls st.1) lib st.1 A), Raised e)])
  | Ainv_built A lib h r tail :
      _Ainv st.1 = None → _A st.1 = Some A →
      Registry.Solver this_module (cls st.1) = Some lib →
      lib_construct st.2 lib (construct_args (cls st.1) lib st.1 A) = Ok h →
      Forall (λ e, is_construct e = false) tail →
      Forall (λ e, is_release e = false) tail →
      r = Ok h ∨ (cls st.1 = MKLPardisoSolver ∧ ∃ e, r = Raise e) →
      Ainv_outcome st r
        ({| cls := cls st.1; _A := Some A; _Ainv := Some h |},
         st.2 ++ (Construct lib (construct_args (cls st.1) lib st.1 A), RetHandle h) :: tail).

(** A property of the state that calls other than constructions and
    releases keep. *)
Definition solve_stable (P : state C Handle → Prop) : Prop :=
  ∀ self tr e,
    is_construct e = false → is_release e = false →
    P (self, tr) → P (self, tr ++ [e]).

(** The matrix and the handle of an instance of class [c] built without a
    matrix: no handle as long as no matrix. *)
Definition consistent (c : adapter_class) (st : state C Handle) : Prop :=
  cls st.1 = c ∧ (_A st.1 = None → _Ainv st.1 = None).



Definition is_del (o : op) : bool :=
  match o with Del => true | _ => false end.




End Adapter.

(** ** Further vocabulary *)

(** The outcomes of an import that the [try] around pymatsolver lets
    pass: success, [ImportError], [SyntaxError] (lines 18-23). *)
Definition tolerated_mumps (o : Registry.import_outcome) : bool :=
  match o with
  | Registry.Imported => true
  | Registry.ImportRaises (ImportError _) => true
  | Registry.ImportRaises SyntaxError => true
  | Registry.ImportRaises _ => false
  end.

(** The outcomes that the [try] around pyMKL and around splu lets pass:
    success and [ImportError] (lines 25-37). *)
Definition tolerated (o : Registry.import_outcome) : bool :=
  match o with
  | Registry.Imported => true
  | Registry.ImportRaises (ImportError _) => true
  | Registry.ImportRaises _ => false
  end.

(** The library an identifier stands for. *)
Definition library_of (id : string) : option library :=
  if decide (id = "mumps") then Some pymatsolver_MumpsSolver
  else if decide (id = "mklpardiso") then Some pyMKL_pardisoSolver
  else if decide (id = "splu") then Some scipy_splu
  else None.

(** What calling [None] raises. *)
Definition type_error : exception :=
  TypeError "'NoneType' object is not callable".

Section FurtherVocabulary.
Context {C Handle : Type} {SC : Scalar C} {RT : Runtime C Handle}.

(** The library calls that build the handle of an adapter of class [c]. *)
Definition build_calls (c : adapter_class) (lib : library)
    (self : instance C Handle) (A : spmatrix C) (h : Handle)
  : list (call C Handle) :=
  Construct lib (construct_args c lib self A) ::
  match c with
  | MKLPardisoSolver => [RunPardiso h 12 None]
  | _ => []
  end.

(** The library call by which an adapter of class [c] solves one vector;
    the base class has none. *)
Definition solve_calls (c : adapter_class) (h : Handle) (q : vector C)
  : list (call C Handle) :=
  match c with
  | BaseSolver => []
  | MumpsSolver => [HandleMul h q]
  | MKLPardisoSolver => [RunPardiso h 33 (Some q)]
  | SuperLUSolver => [HandleSolve h q]
  end.

(** The same runtime over other contents of fresh memory. *)
Definition with_uninit (u : nat → nat → C) : Runtime C Handle :=
  {| this_module := this_module;
     uninit := u;
     lib_construct := lib_construct;
     lib_mul := lib_mul;
     lib_run_pardiso := lib_run_pardiso;
     lib_solve := lib_solve |}.

(** What a batch solve leaves alone: the class, the matrix, a handle
    already cached, and the calls already recorded. *)
Definition framed (c : adapter_class) (oA : option (spmatrix C))
    (oh : option Handle) (tr : list (event C Handle)) (st : state C Handle)
  : Prop :=
  cls st.1 = c ∧ _A st.1 = oA ∧
  (∀ h, oh = Some h → _Ainv st.1 = Some h) ∧
  tr `prefix_of` st.2.

(** The instance has a matrix. *)
Definition has_matrix (st : state C Handle) : Prop := is_Some (_A st.1).

End FurtherVocabulary.

(** ** Test doubles

    A runtime over integer entries whose handles are numbered in the order
    of their construction and whose solves double every entry, and one whose
    factorization routine always raises. *)

#[global] Instance Z_scalar : Scalar Z := {| zero := 0%Z |}.

Definition all_loaded : Registry.environment :=
  {| Registry.env_prelude := Registry.Imported;
     Registry.env_pymatsolver := Registry.Imported;
     Registry.env_pyMKL := Registry.Imported;
     Registry.env_splu := Registry.Imported |}.

Definition only_splu : Registry.environment :=
  {| Registry.env_prelude := Registry.Imported;
     Registry.env_pymatsolver := Registry.ImportRaises (ImportError "No module named pymatsolver");
     Registry.env_pyMKL := Registry.ImportRaises (ImportError "No module named pyMKL");
     Registry.env_splu := Registry.Imported |}.

Definition module_all_loaded : Registry.module :=
  {| Registry.DefaultSolver := None;
     Registry.active := ["mumps"; "mklpardiso"; "splu"];
     Registry.solvers :=
       <["splu" := SuperLUSolver]>
         (<["mklpardiso" := MKLPardisoSolver]> (<["mumps" := MumpsSolver]> ∅));
     Registry._MumpsSolver := Some pymatsolver_MumpsSolver;
     Registry._MKLPardisoSolver := Some pyMKL_pardisoSolver;
     Registry._SuperLUSolver := Some scipy_splu;
     Registry.BestSolver := MumpsSolver |}.

Definition module_only_splu : Registry.module :=
  {| Registry.DefaultSolver := None;
     Registry.active := ["splu"];
     Registry.solvers :=
       <["splu" := SuperLUSolver]>
         (<["mklpardiso" := MKLPardisoSolver]> (<["mumps" := MumpsSolver]> ∅));
     Registry._MumpsSolver := None;
     Registry._MKLPardisoSolver := None;
     Registry._SuperLUSolver := Some scipy_splu;
     Registry.BestSolver := SuperLUSolver |}.

Definition doubling : Runtime Z nat :=
  {| this_module := module_all_loaded;
     uninit := λ i j, (-1)%Z;
     lib_construct := λ tr lib args, Ok (length tr);
     lib_mul := λ tr h q, Ok (map (Z.mul 2) q);
     lib_run_pardiso := λ tr h phase rhs, Ok (map (Z.mul 2) (default [] rhs));
     lib_solve := λ tr h q, Ok (map (Z.mul 2) q) |}.


(** A runtime whose analysis and factorization phase (12) raises, and one
    whose solves raise on a vector starting with 0. *)
Definition phase12_fails : Runtime Z nat :=
  {| this_module := module_all_loaded;
     uninit := λ i j, (-1)%Z;
     lib_construct := λ tr lib args, Ok (length tr);
     lib_mul := λ tr h q, Ok (map (Z.mul 2) q);
     lib_run_pardiso := λ tr h phase rhs,
       if decide (phase = 12%Z) then Raise (NativeError (-4))
       else Ok (map (Z.mul 2) (default [] rhs));
     lib_solve := λ tr h q, Ok (map (Z.mul 2) q) |}.

Definition picky : Runtime Z nat :=
  {| this_module := module_all_loaded;
     uninit := λ i j, (-1)%Z;
     lib_construct := λ tr lib args, Ok (length tr);
     lib_mul := λ tr h q, Ok (map (Z.mul 2) q);
     lib_run_pardiso := λ tr h phase rhs, Ok (map (Z.mul 2) (default [] rhs));
     lib_solve := λ tr h q,
       match q with
       | 0%Z :: _ => Raise (NativeError 3)
       | _ => Ok (map (Z.mul 2) q)
       end |}.

(** The runtime of a machine on which only SuperLU is installed. *)
Definition splu_only_runtime : Runtime Z nat :=
  {| this_module := module_only_splu;
     uninit := λ i j, (-1)%Z;
     lib_construct := λ tr lib args, Ok (length tr);
     lib_mul := λ tr h q, Ok (map (Z.mul 2) q);
     lib_run_pardiso := λ tr h phase rhs, Ok (map (Z.mul 2) (default [] rhs));
     lib_solve := λ tr h q, Ok (map (Z.mul 2) q) |}.

(** A 2-by-2 sparse matrix with entries 1 2 / 0 3, and a 2-by-3 one. *)
Definition A22 : spmatrix Z :=
  {| sp_shape := (2, 2);
     sp_data := <[(0, 0) := 1%Z]> (<[(0, 1) := 2%Z]> (<[(1, 1) := 3%Z]> ∅)) |}.

Definition A23 : spmatrix Z :=
  {| sp_shape := (2, 3);
     sp_data := <[(0, 0) := 1%Z]> (<[(1, 2) := 5%Z]> ∅) |}.

(** The same two columns, dense and sparse. *)
Definition rhs_dense : ndarray Z :=
  {| nd_shape := (2, 2); nd_rows := [[1%Z; 0%Z]; [0%Z; 4%Z]] |}.

Definition rhs_sparse : spmatrix Z :=
  {| sp_shape := (2, 2);
     sp_data := <[(0, 0) := 1%Z]> (<[(1, 1) := 4%Z]> ∅) |}.

(** A SuperLU adapter just built on the 2-by-2 matrix. *)
Definition superlu22 : instance Z nat :=
  {| cls := SuperLUSolver; _A := Some A22; _Ainv := None |}.

(** An MKL PARDISO adapter and a MUMPS adapter just built on it. *)
Definition pardiso22 : instance Z nat :=
  {| cls := MKLPardisoSolver; _A := Some A22; _Ainv := None |}.

Definition mumps22 : instance Z nat :=
  {| cls := MumpsSolver; _A := Some A22; _Ainv := None |}.

(** A machine on which none of the three libraries can be imported. *)
Definition nothing_installed : Registry.environment :=
  {| Registry.env_prelude := Registry.Imported;
     Registry.env_pymatsolver := Registry.ImportRaises SyntaxError;
     Registry.env_pyMKL := Registry.ImportRaises (ImportError "No module named pyMKL");
     Registry.env_splu := Registry.ImportRaises (ImportError "cannot import name splu") |}.

(** A runtime whose SuperLU handle answers every solve with one entry. *)
Definition one_entry : Runtime Z nat :=
  {| this_module := module_all_loaded;
     uninit := λ i j, (-1)%Z;
     lib_construct := λ tr lib args, Ok (length tr);
     lib_mul := λ tr h q, Ok (map (Z.mul 2) q);
     lib_run_pardiso := λ tr h phase rhs, Ok (map (Z.mul 2) (default [] rhs));
     lib_solve := λ tr h q, Ok [7%Z] |}.

(** A batch with two rows and no column. *)
Definition rhs_no_column : ndarray Z :=
  {| nd_shape := (2, 0); nd_rows := [[]; []] |}.


(** * Properties *)

Section MonadFacts.
Context {C Handle : Type}.

Lemma preserves_ret {X} (P : state C Handle → Prop) (x : X) : preserves P (ret (C:=C) (Handle:=Handle) x).
Proof. by intros st. Qed.

Lemma preserves_raise {X} (P : state C Handle → Prop) e : preserves P (@raise C Handle X e).
Proof. by intros st. Qed.

Lemma preserves_lift {X} (P : state C Handle → Prop) (r : result X) : preserves P (lift (C:=C) (Handle:=Handle) r).
Proof. by intros st. Qed.

Lemma preserves_get_self (P : state C Handle → Prop) : preserves P get_self.
Proof. by intros st. Qed.

Lemma preserves_bind {X Y} (P : state C Handle → Prop) (c : M C Handle X) (k : X → M C Handle Y) :
  preserves P c → (∀ x, preserves P (k x)) → preserves P (bind c k).
Proof.
  intros Hc Hk st HP. unfold bind.
  specialize (Hc st HP). destruct (c st) as [[x|e] st']; simpl in *.
  - by apply Hk.
  - done.
Qed.

End MonadFacts.

(** ** The registry *)

Section RegistryFacts.
Import Registry.

Lemma probe_mumps_Ok o act x act' :
  probe_mumps o act = Ok (x, act') →
  act' = act ++ (if loaded o then ["mumps"] else []) ∧
  x = (if loaded o then Some pymatsolver_MumpsSolver else None).
Proof.
  destruct o as [|[]]; simpl; intros; simplify_eq;
    by rewrite ?app_nil_r.
Qed.

Lemma probe_Ok o lib id act x act' :
  probe o lib id act = Ok (x, act') →
  act' = act ++ (if loaded o then [id] else []) ∧
  x = (if loaded o then Some lib else None).
Proof.
  destruct o as [|[]]; simpl; intros; simplify_eq;
    by rewrite ?app_nil_r.
Qed.

(** What a successful initialisation has bound. *)
Lemma load_module_Ok env m :
  load_module env = Ok m →
  active m =
    (if loaded (env_pymatsolver env) then ["mumps"] else []) ++
    (if loaded (env_pyMKL env) then ["mklpardiso"] else []) ++
    (if loaded (env_splu env) then ["splu"] else []) ∧
  solvers m =
    <["splu" := SuperLUSolver]>
      (<["mklpardiso" := MKLPardisoSolver]> (<["mumps" := MumpsSolver]> ∅)) ∧
  best_of (active m) (solvers m) = Ok (BestSolver m).
Proof.
  unfold load_module. intros H.
  destruct (env_prelude env); [|done].
  destruct (probe_mumps _ _) as [[x1 a1]|] eqn:E1; [|done].
  destruct (probe (env_pyMKL env) _ _ _) as [[x2 a2]|] eqn:E2; [|done].
  destruct (probe (env_splu env) _ _ _) as [[x3 a3]|] eqn:E3; [|done].
  apply probe_mumps_Ok in E1 as [-> ->].
  apply probe_Ok in E2 as [-> ->].
  apply probe_Ok in E3 as [-> ->].
  simpl in H.
  destruct ((_ ++ _) ++ _) as [|id rest] eqn:E; [done|].
  destruct (best_of _ _) as [best|] eqn:Eb; [|done].
  injection H as <-. simpl. by rewrite (assoc (++)), E.
Qed.

Lemma available_filter env :
  filter (λ id, available env id = true) priority_order =
    (if loaded (env_pymatsolver env) then ["mumps"] else []) ++
    (if loaded (env_pyMKL env) then ["mklpardiso"] else []) ++
    (if loaded (env_splu env) then ["splu"] else []).
Proof.
  unfold priority_order. rewrite !filter_cons, filter_nil.
  change (available env "mumps") with (loaded (env_pymatsolver env)).
  change (available env "mklpardiso") with (loaded (env_pyMKL env)).
  change (available env "splu") with (loaded (env_splu env)).
  by destruct (loaded (env_pymatsolver env)), (loaded (env_pyMKL env)),
    (loaded (env_splu env)).
Qed.

Lemma solvers_lookup (id : string) :
  (<["splu" := SuperLUSolver]>
     (<["mklpardiso" := MKLPardisoSolver]>
        (<["mumps" := MumpsSolver]> (∅ : gmap string adapter_class)))) !! id
  = adapter_of id.
Proof.
  unfold adapter_of.
  destruct (decide (id = "mumps")) as [->|?]; [done|].
  destruct (decide (id = "mklpardiso")) as [->|?]; [done|].
  destruct (decide (id = "splu")) as [->|?]; [done|].
  by rewrite !lookup_insert_ne, lookup_empty.
Qed.

Lemma active_lists_available env m :
  load_module env = Ok m →
  active m = filter (λ id, available env id = true) priority_order.
Proof.
  intros Hload. apply load_module_Ok in Hload as (Hact & _).
  by rewrite available_filter.
Qed.



(** C9 as stated fails: with only SuperLU installed the mapping still has
    an entry for "mumps". *)
Lemma solvers_keeps_unavailable :
  load_module only_splu = Ok module_only_splu ∧
  ¬ solvers_exactly_available only_splu module_only_splu.
Proof.
  split; [reflexivity|].
  intros H. destruct (H "mumps") as [H1 _].
  assert (Hs : is_Some (solvers module_only_splu !! "mumps"))
    by (exists MumpsSolver; reflexivity).
  specialize (H1 Hs). discriminate H1.
Qed.

(** C9, as amended: after a successful initialisation the mapping has an
    entry for each of the three identifiers, bound to its adapter class,
    whether the library behind it loaded or not, and nothing else; the
    available identifiers are those of [active]. *)
Theorem solvers_holds_every_adapter env m :
  load_module env = Ok m →
  dom (solvers m) = list_to_set priority_order ∧
  (∀ id, solvers m !! id = adapter_of id) ∧
  (∀ id, id ∈ active m ↔ available env id = true).
Proof.
  intros Hload. pose proof Hload as Hbest.
  apply active_lists_available in Hbest.
  apply load_module_Ok in Hload as (Hact & Hslv & _).
  split_and!.
  - rewrite Hslv, !dom_insert_L, dom_empty_L. simpl. set_solver.
  - intros id. rewrite Hslv. apply solvers_lookup.
  - intros id. rewrite Hbest. rewrite list_elem_of_filter.
    split; [by intros [? _]|]. intros Hav. split; [done|].
    unfold available in Hav. unfold priority_order.
    repeat case_decide; subst; try done; set_solver.
Qed.

Lemma solvers_holds_every_adapter_witness :
  load_module only_splu = Ok module_only_splu ∧
  dom (solvers module_only_splu) = list_to_set priority_order ∧
  (∀ id, solvers module_only_splu !! id = adapter_of id) ∧
  (∀ id, id ∈ active module_only_splu ↔ available only_splu id = true).
Proof.
  split; [reflexivity|].
  apply (solvers_holds_every_adapter only_splu module_only_splu).
  reflexivity.
Defined.

End RegistryFacts.

(** ** Arrays *)

Section ArrayFacts.
Context {C : Type} {SC : Scalar C}.

Lemma getcol_lookup (qs : spmatrix C) (j i : nat) :
  sp_data (getcol qs j) !! (i, 0) =
    if decide (i < (sp_shape qs).1) then sp_data qs !! (i, j) else None.
Proof.
  unfold getcol; simpl.
  assert (Hgen : ∀ l : list nat,
    foldr (λ i acc, match sp_data qs !! (i, j) with
                    | Some x => <[(i, 0) := x]> acc
                    | None => acc
                    end) (∅ : gmap (nat * nat) C) l !! (i, 0)
    = if decide (i ∈ l) then sp_data qs !! (i, j) else None).
  { induction l as [|k l IH]; simpl.
    - by rewrite lookup_empty.
    - destruct (decide (i = k)) as [->|Hne].
      + rewrite decide_True by set_solver.
        destruct (sp_data qs !! (k, j)) as [x|] eqn:E.
        * by rewrite lookup_insert_eq.
        * rewrite IH. by case_decide.
      + assert (Hmem : i ∈ l ↔ i ∈ k :: l)
          by (rewrite elem_of_cons; split; [by right | by intros [?|?]]).
        destruct (sp_data qs !! (k, j)) as [x|].
        * rewrite lookup_insert_ne by congruence. rewrite IH.
          by apply decide_ext.
        * rewrite IH. by apply decide_ext. }
  rewrite Hgen. apply decide_ext. rewrite elem_of_seq. lia.
Qed.

(** A column drawn from a sparse matrix through [getcol], [toarray] and
    [ravel] lists its entries row by row, with [zero] where none is stored. *)
Lemma sparse_column_densified (qs : spmatrix C) (j : nat) :
  ravel (toarray (getcol qs j)) =
    map (λ i, default zero (sp_data qs !! (i, j))) (seq 0 (sp_shape qs).1).
Proof.
  unfold ravel, toarray. cbn [nd_rows sp_shape getcol fst snd seq map].
  generalize (getcol_lookup qs j). cbn [getcol sp_data sp_shape fst].
  intros Hl.
  assert (Hgen : ∀ l : list nat, Forall (λ i, i < (sp_shape qs).1) l →
    concat (map (λ i, [default zero
       (foldr (λ i acc, match sp_data qs !! (i, j) with
                        | Some x => <[(i, 0) := x]> acc
                        | None => acc
                        end) (∅ : gmap (nat * nat) C)
          (seq 0 (sp_shape qs).1) !! (i, 0))]) l)
    = map (λ i, default zero (sp_data qs !! (i, j))) l).
  { induction 1 as [|i l Hi _ IH]; [done|]. simpl. rewrite IH. f_equal.
    rewrite Hl. by rewrite decide_True. }
  apply Hgen. apply Forall_forall. intros i Hi%elem_of_seq. lia.
Qed.

Lemma toarray_column (qs : spmatrix C) (j : nat) :
  j < (sp_shape qs).2 →
  column (toarray qs) j =
    map (λ i, default zero (sp_data qs !! (i, j))) (seq 0 (sp_shape qs).1).
Proof.
  intros Hj. unfold column, toarray; simpl. rewrite map_map.
  apply map_ext. intros i.
  rewrite list_lookup_fmap, lookup_seq_lt by done. done.
Qed.

Lemma wf_toarray (qs : spmatrix C) : wf_ndarray (toarray qs).
Proof.
  split; simpl.
  - by rewrite length_map, length_seq.
  - apply Forall_forall. intros row Hrow.
    apply list_elem_of_fmap in Hrow as (i & -> & _).
    by rewrite length_map, length_seq.
Qed.

Lemma wf_np_empty (u : nat → nat → C) (sh : nat * nat) :
  wf_ndarray (np_empty u sh).
Proof.
  split; simpl.
  - by rewrite length_map, length_seq.
  - apply Forall_forall. intros row Hrow.
    apply list_elem_of_fmap in Hrow as (i & -> & _).
    by rewrite length_map, length_seq.
Qed.

Lemma column_zip_insert (rows : list (list C)) (v : vector C) (i n : nat) :
  length v = length rows →
  Forall (λ row, length row = n) rows →
  i < n →
  map (λ row, default zero (row !! i))
      (zip_with (λ row x, <[i := x]> row) rows v) = v.
Proof.
  intros Hlen Hrows Hi. revert v Hlen.
  induction Hrows as [|row rows Hrow _ IH]; intros [|x v] Hlen;
    simpl in *; try done.
  rewrite list_lookup_insert_eq by lia. simpl. f_equal. apply IH. lia.
Qed.

Lemma column_zip_insert_ne (rows : list (list C)) (v : vector C) (i j : nat) :
  j ≠ i →
  length v = length rows →
  map (λ row, default zero (row !! j))
      (zip_with (λ row x, <[i := x]> row) rows v)
  = map (λ row, default zero (row !! j)) rows.
Proof.
  intros Hne. revert v.
  induction rows as [|row rows IH]; intros [|x v] Hlen; simpl in *; try done.
  rewrite list_lookup_insert_ne by done. f_equal. apply IH. lia.
Qed.

(** Writing a column of the right length into an array. *)
Lemma setcol_Ok (a : ndarray C) (i : nat) (v : vector C) :
  wf_ndarray a →
  i < (nd_shape a).2 →
  length v = (nd_shape a).1 →
  ∃ a', setcol a i v = Ok a' ∧
        nd_shape a' = nd_shape a ∧
        wf_ndarray a' ∧
        column a' i = v ∧
        ∀ j, j ≠ i → column a' j = column a j.
Proof.
  intros [Hrows Hcols] Hi Hv. unfold setcol.
  rewrite decide_True by done. rewrite decide_True by done.
  eexists. split; [reflexivity|]. simpl. split_and!.
  - done.
  - split; simpl.
    + rewrite length_zip_with. lia.
    + apply Forall_forall. intros row Hrow.
      apply elem_of_lookup_zip_with in Hrow as (k & row' & x & -> & Hr & _).
      rewrite length_insert.
      eapply (Forall_lookup_1 _ _ _ _ Hcols Hr).
  - unfold column; simpl.
    eapply column_zip_insert; [lia|done|done].
  - intros j Hj. unfold column; simpl.
    apply column_zip_insert_ne; [done|lia].
Qed.

End ArrayFacts.

(** ** The adapter *)

Section AdapterFacts.
Context {C Handle : Type} {SC : Scalar C} {RT : Runtime C Handle}.

Implicit Types (st : state C Handle) (self : instance C Handle).
Implicit Types (h : Handle) (q v : vector C) (rhs : batch C).

Lemma get_A_set st A : _A st.1 = Some A → get_A st = (Ok A, st).
Proof. intros H. unfold get_A, bind, get_self. by rewrite H. Qed.

Lemma get_A_unset st : _A st.1 = None → get_A st = (Raise not_set, st).
Proof. intros H. unfold get_A, bind, get_self. by rewrite H. Qed.

(** With a handle in the cache, [Ainv] hands it back and does nothing. *)
Lemma Ainv_cached st h : _Ainv st.1 = Some h → Ainv st = (Ok h, st).
Proof.
  intros H. unfold Ainv, bind, get_self.
  destruct (cls st.1); unfold Ainv_base, Ainv_pardiso, bind, get_self;
    by rewrite H.
Qed.

Lemma _solve_cached st h q :
  _Ainv st.1 = Some h → _solve q st = apply_handle (cls st.1) h q st.
Proof.
  intros H. unfold _solve, bind at 1, get_self.
  destruct (cls st.1); [done|..]; unfold bind; by rewrite (Ainv_cached st h).
Qed.

(** Without a matrix and without a handle, [Ainv] raises. *)
Lemma Ainv_unset st :
  _A st.1 = None → _Ainv st.1 = None → Ainv st = (Raise not_set, st).
Proof.
  intros HA Hh. unfold Ainv, bind at 1, get_self.
  destruct (cls st.1); unfold Ainv_base, Ainv_pardiso, bind at 1, get_self;
    rewrite Hh; unfold bind; by rewrite get_A_unset.
Qed.

Lemma _solve_unset st q :
  cls st.1 ≠ BaseSolver → _A st.1 = None → _Ainv st.1 = None →
  _solve q st = (Raise not_set, st).
Proof.
  intros Hc HA Hh. unfold _solve, bind at 1, get_self.
  destruct (cls st.1); [done|..]; unfold bind; by rewrite Ainv_unset.
Qed.

(** The generator yields the densified columns, in the order of their index. *)
Lemma qIter_columns rhs :
  qIter rhs = map (batch_column rhs) (seq 0 (batch_shape rhs).2).
Proof.
  destruct rhs as [qs|qs]; simpl; [|done].
  apply map_ext. intros j. apply sparse_column_densified.
Qed.

Lemma length_qIter rhs : length (qIter rhs) = (batch_shape rhs).2.
Proof. by rewrite qIter_columns, length_map, length_seq. Qed.

(** The loop, started at column [k] of an array wide enough. *)
Lemma mul_loop_columns (qs : list (vector C)) :
  ∀ (k : nat) (result : ndarray C) st vs st',
    wf_ndarray result →
    k + length qs ≤ (nd_shape result).2 →
    solve_each qs st = (Ok vs, st') →
    Forall (λ v, length v = (nd_shape result).1) vs →
    ∃ R, mul_loop (zip (seq k (length qs)) qs) result st = (Ok R, st') ∧
         nd_shape R = nd_shape result ∧
         wf_ndarray R ∧
         (∀ j, j < length qs → vs !! j = Some (column R (k + j))) ∧
         (∀ j, j < k → column R j = column result j).
Proof.
  induction qs as [|q qs IH]; intros k result st vs st' Hwf Hk Hsolve Hlen.
  - simpl in *. injection Hsolve as <- <-. exists result.
    split_and!; try done. intros j Hj. lia.
  - simpl in Hsolve. unfold bind in Hsolve.
    destruct (_solve q st) as [[v|e] st1] eqn:Ev; [|done].
    destruct (solve_each qs st1) as [[vs'|e] st2] eqn:Evs; [|done].
    unfold ret in Hsolve. injection Hsolve as <- <-.
    apply Forall_cons in Hlen as [Hv Hlen].
    destruct (setcol_Ok result k v) as (a' & Hset & Hsh & Hwf' & Hcol & Hother);
      [done|simpl in Hk; lia|done|].
    destruct (IH (S k) a' st1 vs' st2) as (R & Hloop & HshR & HwfR & Hcols & Hkeep).
    { done. } { rewrite Hsh. simpl in Hk. lia. } { done. }
    { by rewrite Hsh. }
    exists R. split_and!.
    + simpl. unfold bind at 1. rewrite Ev. unfold bind, lift. by rewrite Hset.
    + by rewrite HshR.
    + done.
    + intros [|j] Hj; simpl.
      * rewrite Nat.add_0_r, Hkeep by lia. by rewrite Hcol.
      * rewrite Hcols by (simpl in Hj; lia). do 2 f_equal. lia.
    + intros j Hj. rewrite Hkeep by lia. apply Hother. lia.
Qed.

(** C1, as amended: for a batch with N columns, when the single-vector
    solve applied to the densified columns 0, 1, ..., N-1 in this order
    gives the vectors vs, each as long as the batch has rows, the batch
    solve returns a dense array of the shape of the batch whose column j is
    the j-th of them, and leaves the instance and the record of calls as
    those solves left them. *)
Theorem mul_solves_each_column rhs st st' (vs : list (vector C)) :
  solve_each (map (batch_column rhs) (seq 0 (batch_shape rhs).2)) st
    = (Ok vs, st') →
  Forall (λ v, length v = (batch_shape rhs).1) vs →
  ∃ R, __mul__ rhs st = (Ok R, st') ∧
       nd_shape R = batch_shape rhs ∧
       wf_ndarray R ∧
       ∀ j, j < (batch_shape rhs).2 → vs !! j = Some (column R j).
Proof.
  intros Hsolve Hlen. rewrite <- qIter_columns in Hsolve.
  destruct (mul_loop_columns (qIter rhs) 0
              (np_empty uninit (batch_shape rhs)) st vs st')
    as (R & Hloop & Hsh & Hwf & Hcols & _).
  - apply wf_np_empty.
  - simpl. by rewrite length_qIter.
  - done.
  - done.
  - exists R. split_and!; try done.
    intros j Hj. rewrite Hcols; [done|]. by rewrite length_qIter.
Qed.

(** C8: a sparse batch and a dense batch of the same shape and with the
    same columns are solved alike: same result, same calls, same state. *)
Theorem mul_sparse_as_dense (S : spmatrix C) (D : ndarray C) st :
  nd_shape D = sp_shape S →
  (∀ j, j < (sp_shape S).2 → column D j = batch_column (Sparse S) j) →
  __mul__ (Sparse S) st = __mul__ (Dense D) st.
Proof.
  intros Hsh Hcol. unfold __mul__.
  rewrite !qIter_columns.
  change (batch_shape (Sparse S)) with (sp_shape S).
  change (batch_shape (Dense D)) with (nd_shape D). rewrite Hsh.
  assert (Hqs : map (batch_column (Sparse S)) (seq 0 (sp_shape S).2)
                = map (batch_column (Dense D)) (seq 0 (sp_shape S).2)).
  { apply map_ext_in. intros j Hj%in_seq. symmetry. apply Hcol. lia. }
  by rewrite Hqs.
Qed.

(** The dense form of a sparse batch has its columns. *)
Lemma toarray_same_columns (S : spmatrix C) :
  nd_shape (toarray S) = sp_shape S ∧
  ∀ j, j < (sp_shape S).2 →
       column (toarray S) j = batch_column (Sparse S) j.
Proof. split; [done|]. intros j Hj. by apply toarray_column. Qed.

(** C10: a batch with no column is answered with the empty array of its
    shape; nothing is solved, no handle is built, the state is untouched,
    whether a matrix has been set or not. *)
Theorem mul_no_column rhs st :
  (batch_shape rhs).2 = 0 →
  ∃ R, __mul__ rhs st = (Ok R, st) ∧
       nd_shape R = batch_shape rhs ∧
       nd_rows R = replicate (batch_shape rhs).1 [].
Proof.
  intros H0. unfold __mul__.
  assert (Hq : qIter rhs = []).
  { apply length_zero_iff_nil. by rewrite length_qIter. }
  rewrite Hq. simpl. eexists. split_and!; [reflexivity|done|].
  simpl. rewrite H0. simpl.
  generalize 0. induction (batch_shape rhs).1 as [|m IH]; intros k; simpl; [done|].
  by rewrite IH.
Qed.

(** C6: with a matrix of shape (m, n) set, [shape] is (n, m). *)
Theorem shape_is_transposed st (A : spmatrix C) (m n : nat) :
  _A st.1 = Some A →
  sp_shape A = (m, n) →
  shape st = (Ok (n, m), st).
Proof.
  intros HA Hs. unfold shape, bind. rewrite (get_A_set st A) by done.
  unfold ret, transpose. simpl. by rewrite Hs.
Qed.

(** *** The cache of the factorization handle *)

Lemma Ainv_outcome_complete st r st' :
  Ainv st = (r, st') → Ainv_outcome st r st'.
Proof.
  intros HAinv. destruct st as [[c oA oh] tr].
  destruct oh as [h|].
  { rewrite (Ainv_cached _ h) in HAinv by done.
    injection HAinv as <- <-. by constructor. }
  destruct oA as [A|]; cycle 1.
  { rewrite Ainv_unset in HAinv by done.
    injection HAinv as <- <-. by constructor. }
  unfold Ainv, Ainv_base, Ainv_pardiso, bind, get_self, get_A, ret, raise,
    call_construct, call_run_pardiso, native, put_self in HAinv.
  destruct (Registry.Solver this_module c) as [lib|] eqn:El; cycle 1.
  { destruct c; simpl in *; rewrite ?El in HAinv;
      injection HAinv as <- <-; by eapply Ainv_no_library. }
  destruct (lib_construct tr lib
              (construct_args c lib {| cls := c; _A := Some A; _Ainv := None |} A))
    as [h|e] eqn:Ec; cycle 1.
  { destruct c; unfold construct_args in Ec; simpl in *; try discriminate;
      rewrite El in HAinv; simpl in HAinv; rewrite Ec in HAinv;
      injection HAinv as <- <-;
      match goal with
      | |- Ainv_outcome ?s _ _ => by eapply (Ainv_failed s A lib e)
      end. }
  destruct c; unfold construct_args in Ec; simpl in *; try discriminate;
    rewrite El in HAinv; simpl in HAinv; rewrite Ec in HAinv; simpl in HAinv.
  - injection HAinv as <- <-.
    match goal with
    | |- Ainv_outcome ?s _ _ => by eapply (Ainv_built s A lib h (Ok h) []); eauto
    end.
  - destruct (lib_run_pardiso _ h 12 None) as [x|e] eqn:Er;
      injection HAinv as <- <-; rewrite <- app_assoc; simpl.
    + match goal with
      | |- Ainv_outcome ?s _ _ =>
          eapply (Ainv_built s A lib h (Ok h) [_]); eauto;
            by apply Forall_singleton
      end.
    + match goal with
      | |- Ainv_outcome ?s _ _ =>
          eapply (Ainv_built s A lib h (Raise e) [_]); eauto;
            by apply Forall_singleton
      end.
  - injection HAinv as <- <-.
    match goal with
    | |- Ainv_outcome ?s _ _ => by eapply (Ainv_built s A lib h (Ok h) []); eauto
    end.
Qed.




(** *** What every operation keeps *)

Lemma get_A_state st : (get_A st).2 = st.
Proof. unfold get_A, bind, get_self. by destruct (_A st.1). Qed.

Lemma shape_state st : (shape st).2 = st.
Proof.
  unfold shape, bind. pose proof (get_A_state st) as H.
  destruct (get_A st) as [[A|e] st1]; simpl in *; by subst.
Qed.

Lemma preserves_apply_handle (P : state C Handle → Prop) c h q :
  solve_stable P → preserves P (apply_handle c h q).
Proof.
  intros Hst [self tr] HP.
  destruct c; simpl; [done|..]; by apply Hst.
Qed.

(** Every way [__del__] can go. *)
Lemma del_cases st :
  (__del__ st).2 = st ∨
  (∃ h x, cls st.1 = MKLPardisoSolver ∧ _Ainv st.1 = Some h ∧
          (__del__ st).2 =
            ({| cls := cls st.1; _A := _A st.1; _Ainv := None |},
             st.2 ++ [(RunPardiso h (-1) None, RetVector x)])) ∨
  (∃ h e, cls st.1 = MKLPardisoSolver ∧ _Ainv st.1 = Some h ∧
          (__del__ st).2 =
            (st.1, st.2 ++ [(RunPardiso h (-1) None, Raised e)])).
Proof.
  destruct st as [[c oA oh] tr].
  unfold __del__, bind, get_self, call_run_pardiso, native, put_self, ret.
  simpl. destruct c; try (by left). destruct oh as [h|]; [|by left].
  simpl. destruct (lib_run_pardiso tr h (-1) None) as [x|e]; simpl.
  - right. left. by exists h, x.
  - right. right. by exists h, e.
Qed.

Lemma preserves__solve (P : state C Handle → Prop) q :
  solve_stable P → preserves P Ainv → preserves P (_solve q).
Proof.
  intros Hst HAinv. unfold _solve.
  apply preserves_bind; [apply preserves_get_self|]. intros self.
  destruct (cls self); [apply preserves_raise|..];
    (apply preserves_bind; [done|]); intros h;
    by apply preserves_apply_handle.
Qed.

Lemma preserves_mul_loop (P : state C Handle → Prop) iqs :
  solve_stable P → preserves P Ainv →
  ∀ result, preserves P (mul_loop iqs result).
Proof.
  intros Hst HAinv. induction iqs as [|[i q] iqs IH]; intros result; simpl.
  - apply preserves_ret.
  - apply preserves_bind; [by apply preserves__solve|]. intros v.
    apply preserves_bind; [apply preserves_lift|]. intros result'. apply IH.
Qed.

Lemma run_op_preserves (P : state C Handle → Prop) (o : op) :
  solve_stable P → preserves P Ainv → (∀ A, preserves P (set_A A)) →
  is_del o = false ∨ preserves P __del__ →
  preserves P (λ st, (Ok tt, run_op o st)).
Proof.
  intros Hst HAinv Hset Hdel st HP. destruct o; simpl.
  - by apply Hset.
  - by rewrite get_A_state.
  - by rewrite shape_state.
  - by apply HAinv.
  - unfold __mul__. by apply preserves_mul_loop.
  - destruct Hdel as [?|Hdel]; [done|]. by apply Hdel.
Qed.

(** Over any operations, [__del__] among them. *)
Lemma run_ops_preserves (P : state C Handle → Prop) :
  solve_stable P → preserves P Ainv → (∀ A, preserves P (set_A A)) →
  preserves P __del__ →
  ∀ os st, P st → P (run_ops os st).
Proof.
  intros Hst HAinv Hset Hdel os. unfold run_ops.
  induction os as [|o os IH]; intros st HP; simpl; [done|].
  apply IH. apply (run_op_preserves P o); auto.
Qed.


(** What the setter of [A] does, case by case. *)
Lemma set_A_None st : set_A PyNone st = (Ok tt, st).
Proof. done. Qed.

Lemma set_A_sparse st (A : spmatrix C) :
  set_A (PyArray (Sparse A)) st
  = (Ok tt, ({| cls := cls st.1; _A := Some A; _Ainv := _Ainv st.1 |}, st.2)).
Proof. done. Qed.

Lemma set_A_refused st (v : pyval C) :
  v ≠ PyNone → is_spmatrix v = false →
  set_A v st =
    (Raise (Exception ("Class " +:+ class_name (cls st.1)
                       +:+ " can only register SciPy sparse matrices")), st).
Proof. intros Hn Hs. by destruct v as [|[|]|]. Qed.

Lemma set_A_frame st (v : pyval C) :
  cls (set_A v st).2.1 = cls st.1 ∧
  _Ainv (set_A v st).2.1 = _Ainv st.1 ∧
  (set_A v st).2.2 = st.2 ∧
  (_A st.1 ≠ None → _A (set_A v st).2.1 ≠ None).
Proof. by destruct v as [|[|]|]. Qed.

(** *** The invariants *)

Lemma consistent_kept c os st :
  consistent c st → consistent c (run_ops os st).
Proof.
  apply run_ops_preserves.
  - intros self tr e _ _ HP. exact HP.
  - intros st0 [Hc Hh].
    destruct (Ainv st0) as [r st1] eqn:E. simpl.
    apply Ainv_outcome_complete in E.
    inversion E; subst; simpl; done.
  - intros A st0 [Hc Hh].
    destruct (set_A_frame st0 A) as (Hcls & Hinv & _ & HA).
    split; [congruence|]. intros HN. rewrite Hinv. apply Hh.
    destruct (_A st0.1) eqn:E0; [|done]. by destruct HA.
  - intros st0 [Hc Hh].
    destruct (del_cases st0) as [->|[(h & x & _ & _ & ->)|(h & e & _ & _ & ->)]];
      done.
Qed.






Lemma new_Ok c (A0 : pyval C) self :
  new c A0 = Ok self → cls self = c ∧ _Ainv self = None.
Proof.
  unfold new, __init__. destruct A0 as [|[A|D]|t]; simpl; intros [= <-]; done.
Qed.


(** C3, as amended: the setter of [A] stores a sparse matrix; given [None]
    it does nothing and keeps the matrix already set; given anything else
    it raises an exception whose message names the class of the adapter
    (not the type of the value) and leaves the instance as it was. *)
Theorem set_A_stores_or_refuses st :
  set_A PyNone st = (Ok tt, st) ∧
  (∀ A : spmatrix C,
     set_A (PyArray (Sparse A)) st =
       (Ok tt, ({| cls := cls st.1; _A := Some A; _Ainv := _Ainv st.1 |}, st.2))) ∧
  (∀ v : pyval C,
     v ≠ PyNone → is_spmatrix v = false →
     set_A v st =
       (Raise (Exception ("Class " +:+ class_name (cls st.1)
                          +:+ " can only register SciPy sparse matrices")), st)).
Proof.
  split_and!.
  - apply set_A_None.
  - apply set_A_sparse.
  - apply set_A_refused.
Qed.

(** C4, as amended: on an instance built without a matrix and on which
    none has been set since, the getter of [A] and [shape] raise "System
    matrix has not been set", and so does the batch solve of a Mumps,
    MKLPardiso or SuperLU adapter when the batch has at least one column;
    the state is left as it was. *)
Theorem unset_matrix_raises c self (os : list op) st :
  new c PyNone = Ok self →
  st = run_ops os (self, []) →
  _A st.1 = None →
  get_A st = (Raise not_set, st) ∧
  shape st = (Raise not_set, st) ∧
  (∀ rhs, c ≠ BaseSolver → 0 < (batch_shape rhs).2 →
          __mul__ rhs st = (Raise not_set, st)).
Proof.
  intros Hnew -> HA. apply new_Ok in Hnew as [Hcls Hnone].
  assert (Hc : consistent c (run_ops os (self, []))).
  { apply consistent_kept. split; simpl; [done|]. by rewrite Hnone. }
  set (st := run_ops os (self, [])) in *. destruct Hc as [Hc Hh].
  split_and!.
  - by apply get_A_unset.
  - unfold shape, bind. by rewrite get_A_unset.
  - intros rhs Hbase Hcols. unfold __mul__.
    pose proof (length_qIter rhs) as Hlen.
    destruct (qIter rhs) as [|q qs]; [simpl in Hlen; lia|].
    simpl. unfold bind at 1.
    rewrite _solve_unset; [done|congruence|done|by apply Hh].
Qed.

(** C7: with a handle in the cache, setting another sparse matrix stores
    the matrix and leaves the handle where it is; [Ainv] still returns that
    handle without calling the factorization routine, and the solves that
    follow are made with it. *)
Theorem set_A_keeps_stale_handle st h (B : spmatrix C) :
  _Ainv st.1 = Some h →
  ∃ self',
    set_A (PyArray (Sparse B)) st = (Ok tt, (self', st.2)) ∧
    cls self' = cls st.1 ∧
    _A self' = Some B ∧
    _Ainv self' = Some h ∧
    Ainv (self', st.2) = (Ok h, (self', st.2)) ∧
    ∀ q, _solve q (self', st.2) = apply_handle (cls st.1) h q (self', st.2).
Proof.
  intros Hh. eexists. split; [apply set_A_sparse|]. simpl. split_and!; try done.
  - by apply Ainv_cached.
  - intros q. by rewrite (_solve_cached _ h).
Qed.

End AdapterFacts.

(** ** The theorems on the test doubles *)

Example load_all_loaded :
  Registry.load_module all_loaded = Ok module_all_loaded.
Proof. reflexivity. Qed.

Example load_nothing :
  Registry.load_module
    {| Registry.env_prelude := Registry.Imported;
       Registry.env_pymatsolver := Registry.ImportRaises SyntaxError;
       Registry.env_pyMKL := Registry.ImportRaises (ImportError "pyMKL");
       Registry.env_splu := Registry.ImportRaises (ImportError "splu") |}
  = Raise (ImportError "Problemo: could not load backend").
Proof. reflexivity. Qed.

Example qIter_sparse_dense :
  qIter (Sparse rhs_sparse) = [[1; 0]; [0; 4]]%Z ∧
  qIter (Dense rhs_dense) = [[1; 0]; [0; 4]]%Z.
Proof. split; reflexivity. Qed.

Example mul_dense_doubling :
  (__mul__ (RT:=doubling) (Dense rhs_dense) (superlu22, [])).1 =
    Ok {| nd_shape := (2, 2); nd_rows := [[2; 0]; [0; 8]]%Z |}.
Proof. reflexivity. Qed.

Example setcol_broadcasts :
  setcol rhs_dense 1 [9%Z] =
    Ok {| nd_shape := (2, 2); nd_rows := [[1; 9]; [0; 9]]%Z |} ∧
  setcol rhs_dense 1 [9; 9; 9]%Z =
    Raise (ValueError "could not broadcast input array").
Proof. split; reflexivity. Qed.

Example base_solver_not_implemented :
  (__mul__ (RT:=doubling) (Dense rhs_dense)
     ({| cls := BaseSolver; _A := Some A22; _Ainv := None |}, [])).1 =
    Raise NotImplementedError.
Proof. reflexivity. Qed.

Lemma mul_solves_each_column_witness :
  ∃ R, __mul__ (RT:=doubling) (Dense rhs_dense) (superlu22, []) =
         (Ok R, (solve_each (RT:=doubling)
                   (map (batch_column (Dense rhs_dense)) (seq 0 2))
                   (superlu22, [])).2) ∧
       nd_shape R = (2, 2) ∧
       wf_ndarray R ∧
       ∀ j, j < 2 → [[2; 0]; [0; 8]]%Z !! j = Some (column R j).
Proof.
  apply (mul_solves_each_column (RT:=doubling) (Dense rhs_dense)
           (superlu22, []) _ [[2; 0]; [0; 8]]%Z).
  - reflexivity.
  - repeat constructor.
Defined.

(** C1 as stated fails: on a machine with SuperLU only, a MumpsSolver with
    its matrix set raises TypeError on a batch of two columns and returns
    no array. *)
Lemma mul_without_library_raises :
  Registry.load_module only_splu = Ok module_only_splu ∧
  new MumpsSolver (PyArray (Sparse A22)) = Ok mumps22 ∧
  __mul__ (RT:=splu_only_runtime) (Dense rhs_dense) (mumps22, [])
    = (Raise type_error, (mumps22, [])) ∧
  ¬ ∃ R, (__mul__ (RT:=splu_only_runtime) (Dense rhs_dense) (mumps22, [])).1
         = Ok R.
Proof.
  split_and!; [reflexivity..|]. intros [R HR]. discriminate HR.
Qed.

(** A solve answering a single entry is broadcast down the column. *)
Example mul_broadcasts_one_entry :
  (__mul__ (RT:=one_entry) (Dense rhs_dense) (superlu22, [])).1 =
    Ok {| nd_shape := (2, 2); nd_rows := [[7; 7]; [7; 7]]%Z |}.
Proof. reflexivity. Qed.



(** After a release the next access builds a second handle. *)
Example rebuilt_after_release :
  map snd (constructions
             (run_ops (RT:=doubling) [GetAinv; Del; GetAinv] (pardiso22, [])).2)
  = [RetHandle 0; RetHandle 3].
Proof. reflexivity. Qed.

Example one_construction_without_release :
  length (constructions
            (run_ops (RT:=doubling)
               [Mul (Dense rhs_dense); SetA (PyArray (Sparse A23)); GetAinv;
                Mul (Sparse rhs_sparse)]
               (superlu22, [])).2) = 1.
Proof. reflexivity. Qed.

(** The callable of SuperLU receives the instance before the matrix. *)
Example superlu_constructor_call :
  map fst (run_ops (RT:=doubling) [GetAinv] (superlu22, [])).2
  = [Construct scipy_splu [ArgSelf superlu22; ArgMatrix A22]].
Proof. reflexivity. Qed.

(** C3 as stated fails: given a dense array, the message of the exception
    names the class of the adapter and nowhere the type of the array. *)
Lemma set_A_error_omits_type :
  type_name (PyArray (Dense rhs_dense)) = "ndarray" ∧
  (set_A (PyArray (Dense rhs_dense)) (superlu22, [])).1 =
    Raise (Exception "Class SuperLUSolver can only register SciPy sparse matrices") ∧
  ¬ names_type_of (PyArray (Dense rhs_dense))
      (set_A (PyArray (Dense rhs_dense)) (superlu22, [])).1.
Proof.
  split_and!; [reflexivity..|].
  intros (msg & Hmsg & Hin). injection Hmsg as <-. discriminate Hin.
Qed.

(** C4 as stated fails: on an instance without a matrix, the solve of a
    batch with no column returns. *)
Lemma mul_unset_no_column_returns :
  new SuperLUSolver PyNone = Ok (blank (C:=Z) (Handle:=nat) SuperLUSolver) ∧
  __mul__ (RT:=doubling) (Dense rhs_no_column) (blank SuperLUSolver, []) =
    (Ok rhs_no_column, (blank SuperLUSolver, [])) ∧
  (__mul__ (RT:=doubling) (Dense rhs_no_column) (blank SuperLUSolver, [])).1
    ≠ Raise not_set.
Proof. split_and!; [reflexivity..|discriminate]. Qed.

Lemma unset_matrix_raises_witness :
  new MumpsSolver PyNone = Ok (blank (C:=Z) (Handle:=nat) MumpsSolver) ∧
  get_A (blank (C:=Z) (Handle:=nat) MumpsSolver, []) =
    (Raise not_set, (blank MumpsSolver, [])) ∧
  shape (blank (C:=Z) (Handle:=nat) MumpsSolver, []) =
    (Raise not_set, (blank MumpsSolver, [])) ∧
  (∀ rhs, MumpsSolver ≠ BaseSolver → 0 < (batch_shape rhs).2 →
          __mul__ (RT:=doubling) rhs (blank MumpsSolver, []) =
            (Raise not_set, (blank MumpsSolver, []))).
Proof.
  split; [reflexivity|].
  apply (unset_matrix_raises (RT:=doubling) MumpsSolver (blank MumpsSolver)
           [GetShape; SetA PyNone] (blank MumpsSolver, []));
    reflexivity.
Defined.

Lemma shape_is_transposed_witness :
  shape (Handle:=nat)
    ({| cls := SuperLUSolver; _A := Some A23; _Ainv := None |}, []) =
  (Ok (3, 2), ({| cls := SuperLUSolver; _A := Some A23; _Ainv := None |}, [])).
Proof.
  apply (shape_is_transposed (Handle:=nat)
           ({| cls := SuperLUSolver; _A := Some A23; _Ainv := None |}, [])
           A23 2 3); reflexivity.
Defined.

Lemma set_A_keeps_stale_handle_witness :
  ∃ self',
    set_A (PyArray (Sparse A23))
      ({| cls := SuperLUSolver; _A := Some A22; _Ainv := Some 7 |}, []) =
      (Ok tt, (self', [])) ∧
    cls self' = SuperLUSolver ∧
    _A self' = Some A23 ∧
    _Ainv self' = Some 7 ∧
    Ainv (RT:=doubling) (self', []) = (Ok 7, (self', [])) ∧
    ∀ q, _solve (RT:=doubling) q (self', []) =
           apply_handle (RT:=doubling) SuperLUSolver 7 q (self', []).
Proof.
  apply (set_A_keeps_stale_handle (RT:=doubling)
           ({| cls := SuperLUSolver; _A := Some A22; _Ainv := Some 7 |}, [])
           7 A23).
  reflexivity.
Defined.

Lemma mul_sparse_as_dense_witness :
  __mul__ (RT:=doubling) (Sparse rhs_sparse) (superlu22, []) =
  __mul__ (RT:=doubling) (Dense rhs_dense) (superlu22, []).
Proof.
  apply (mul_sparse_as_dense (RT:=doubling) rhs_sparse rhs_dense).
  - reflexivity.
  - intros [|[|j]] Hj; [reflexivity|reflexivity|simpl in Hj; lia].
Defined.

Lemma mul_no_column_witness :
  ∃ R, __mul__ (RT:=doubling) (Dense rhs_no_column) (blank SuperLUSolver, []) =
         (Ok R, (blank SuperLUSolver, [])) ∧
       nd_shape R = (2, 0) ∧
       nd_rows R = [[]; []].
Proof.
  apply (mul_no_column (RT:=doubling) (Dense rhs_no_column)
           (blank SuperLUSolver, [])).
  reflexivity.
Defined.

(** * Further properties *)

(** ** Loading the module *)

Section LoadingFacts.
Import Registry.

Lemma probe_mumps_tolerated o act :
  tolerated_mumps o = true →
  probe_mumps o act =
    Ok (if loaded o then Some pymatsolver_MumpsSolver else None,
        act ++ (if loaded o then ["mumps"] else [])).
Proof. destruct o as [|[]]; simpl; intros; by rewrite ?app_nil_r. Qed.

Lemma probe_mumps_refused o act :
  tolerated_mumps o = false →
  ∃ e, o = ImportRaises e ∧ probe_mumps o act = Raise e.
Proof. destruct o as [|[]]; simpl; intros; try done; by eexists. Qed.

Lemma probe_tolerated o lib id act :
  tolerated o = true →
  probe o lib id act =
    Ok (if loaded o then Some lib else None,
        act ++ (if loaded o then [id] else [])).
Proof. destruct o as [|[]]; simpl; intros; by rewrite ?app_nil_r. Qed.

Lemma probe_refused o lib id act :
  tolerated o = false →
  ∃ e, o = ImportRaises e ∧ probe o lib id act = Raise e.
Proof. destruct o as [|[]]; simpl; intros; try done; by eexists. Qed.

(** X1: the module loads exactly when the imports of lines 4-11 succeed,
    each of the three guarded imports either succeeds or fails in a way its
    [except] clause catches, and at least one of them succeeds. *)
Theorem load_module_succeeds_iff env :
  (∃ m, load_module env = Ok m) ↔
  env_prelude env = Imported ∧
  tolerated_mumps (env_pymatsolver env) = true ∧
  tolerated (env_pyMKL env) = true ∧
  tolerated (env_splu env) = true ∧
  loaded (env_pymatsolver env) || loaded (env_pyMKL env)
    || loaded (env_splu env) = true.
Proof.
  unfold load_module. split.
  - intros [m H]. destruct (env_prelude env); [|done].
    destruct (tolerated_mumps (env_pymatsolver env)) eqn:H1; cycle 1.
    { destruct (probe_mumps_refused _ [] H1) as (e & _ & Hr).
      by rewrite Hr in H. }
    rewrite (probe_mumps_tolerated _ _ H1) in H.
    destruct (tolerated (env_pyMKL env)) eqn:H2; cycle 1.
    { destruct (probe_refused _ pyMKL_pardisoSolver "mklpardiso"
                  ([] ++ (if loaded (env_pymatsolver env) then ["mumps"] else []))
                  H2) as (e & _ & Hr).
      by rewrite Hr in H. }
    rewrite (probe_tolerated _ _ _ _ H2) in H.
    destruct (tolerated (env_splu env)) eqn:H3; cycle 1.
    { destruct (probe_refused _ scipy_splu "splu"
                  (([] ++ (if loaded (env_pymatsolver env) then ["mumps"] else []))
                   ++ (if loaded (env_pyMKL env) then ["mklpardiso"] else []))
                  H3) as (e & _ & Hr).
      by rewrite Hr in H. }
    rewrite (probe_tolerated _ _ _ _ H3) in H.
    split_and!; try done.
    by destruct (loaded (env_pymatsolver env)), (loaded (env_pyMKL env)),
      (loaded (env_splu env)).
  - intros (Hp & H1 & H2 & H3 & Hl). rewrite Hp.
    rewrite (probe_mumps_tolerated _ _ H1), (probe_tolerated _ _ _ _ H2),
      (probe_tolerated _ _ _ _ H3).
    destruct (loaded (env_pymatsolver env)), (loaded (env_pyMKL env)),
      (loaded (env_splu env)); try discriminate; by eexists.
Qed.

(** X2: when the three guarded imports all fail in a way that is caught,
    loading the module raises ImportError('Problemo: could not load
    backend'). *)
Theorem load_module_without_backend env :
  env_prelude env = Imported →
  tolerated_mumps (env_pymatsolver env) = true →
  tolerated (env_pyMKL env) = true →
  tolerated (env_splu env) = true →
  loaded (env_pymatsolver env) = false →
  loaded (env_pyMKL env) = false →
  loaded (env_splu env) = false →
  load_module env = Raise (ImportError "Problemo: could not load backend").
Proof.
  intros Hp H1 H2 H3 L1 L2 L3. unfold load_module. rewrite Hp.
  rewrite (probe_mumps_tolerated _ _ H1), (probe_tolerated _ _ _ _ H2),
    (probe_tolerated _ _ _ _ H3).
  by rewrite L1, L2, L3.
Qed.

(** X3: an exception that no [except] clause catches leaves the module
    unloaded with that exception: any exception of the first imports, any
    but ImportError and SyntaxError from pymatsolver, and any but
    ImportError from pyMKL and from splu, SyntaxError included. *)
Theorem load_module_propagates env e :
  (env_prelude env = ImportRaises e → load_module env = Raise e) ∧
  (env_prelude env = Imported →
   env_pymatsolver env = ImportRaises e →
   tolerated_mumps (ImportRaises e) = false →
   load_module env = Raise e) ∧
  (env_prelude env = Imported →
   tolerated_mumps (env_pymatsolver env) = true →
   env_pyMKL env = ImportRaises e →
   tolerated (ImportRaises e) = false →
   load_module env = Raise e) ∧
  (env_prelude env = Imported →
   tolerated_mumps (env_pymatsolver env) = true →
   tolerated (env_pyMKL env) = true →
   env_splu env = ImportRaises e →
   tolerated (ImportRaises e) = false →
   load_module env = Raise e).
Proof.
  unfold load_module. split_and!.
  - by intros ->.
  - intros -> -> H1.
    destruct (probe_mumps_refused _ [] H1) as (e' & [= <-] & ->). done.
  - intros -> H1 -> H2. rewrite (probe_mumps_tolerated _ _ H1).
    destruct (probe_refused _ pyMKL_pardisoSolver "mklpardiso"
                ([] ++ (if loaded (env_pymatsolver env) then ["mumps"] else []))
                H2) as (e' & [= <-] & ->).
    done.
  - intros -> H1 H2 -> H3.
    rewrite (probe_mumps_tolerated _ _ H1), (probe_tolerated _ _ _ _ H2).
    destruct (probe_refused _ scipy_splu "splu"
                (([] ++ (if loaded (env_pymatsolver env) then ["mumps"] else []))
                 ++ (if loaded (env_pyMKL env) then ["mklpardiso"] else []))
                H3) as (e' & [= <-] & ->).
    done.
Qed.

(** What a successful initialisation has bound to the three private names. *)
Lemma load_module_bindings env m :
  load_module env = Ok m →
  _MumpsSolver m =
    (if loaded (env_pymatsolver env) then Some pymatsolver_MumpsSolver else None) ∧
  _MKLPardisoSolver m =
    (if loaded (env_pyMKL env) then Some pyMKL_pardisoSolver else None) ∧
  _SuperLUSolver m =
    (if loaded (env_splu env) then Some scipy_splu else None).
Proof.
  unfold load_module. intros H.
  destruct (env_prelude env); [|done].
  destruct (probe_mumps _ _) as [[x1 a1]|] eqn:E1; [|done].
  destruct (probe (env_pyMKL env) _ _ _) as [[x2 a2]|] eqn:E2; [|done].
  destruct (probe (env_splu env) _ _ _) as [[x3 a3]|] eqn:E3; [|done].
  apply probe_mumps_Ok in E1 as [_ ->].
  apply probe_Ok in E2 as [_ ->].
  apply probe_Ok in E3 as [_ ->].
  destruct a3; [done|]. destruct (best_of _ _); [|done].
  by injection H as <-.
Qed.

(** X4: in a loaded module, the adapter class of an identifier has its
    library behind it exactly when the identifier is available, and is
    bound to [None] otherwise; the class exposed as [BestSolver] always has
    its library, the base class never has one. *)
Theorem adapter_has_library_iff_available env m :
  load_module env = Ok m →
  (∀ id c, adapter_of id = Some c →
           Solver m c = if available env id then library_of id else None) ∧
  is_Some (Solver m (BestSolver m)) ∧
  Solver m BaseSolver = None.
Proof.
  intros Hload.
  destruct (load_module_bindings env m Hload) as (B1 & B2 & B3).
  destruct (load_module_Ok env m Hload) as (Hact & Hslv & Hbest).
  split_and!; [| |done].
  - intros id c Hid. unfold adapter_of, available, library_of in *.
    destruct (decide (id = "mumps")) as [->|?].
    { injection Hid as <-. simpl. rewrite B1. by destruct (loaded _). }
    destruct (decide (id = "mklpardiso")) as [->|?].
    { injection Hid as <-. simpl. rewrite B2. by destruct (loaded _). }
    destruct (decide (id = "splu")) as [->|?]; [|done].
    injection Hid as <-. simpl. rewrite B3. by destruct (loaded _).
  - rewrite Hact, Hslv in Hbest.
    destruct (loaded (env_pymatsolver env)), (loaded (env_pyMKL env)),
      (loaded (env_splu env)); simpl in Hbest; try discriminate;
      injection Hbest as <-; simpl; rewrite ?B1, ?B2, ?B3; by eexists.
Qed.

End LoadingFacts.

(** ** Solving, call by call *)

Section SolveFacts.
Context {C Handle : Type} {SC : Scalar C} {RT : Runtime C Handle}.

Implicit Types (st : state C Handle) (self : instance C Handle).
Implicit Types (h : Handle) (q v : vector C) (rhs : batch C).

Lemma _solve_Ainv_raises st q e st' :
  cls st.1 ≠ BaseSolver → Ainv st = (Raise e, st') →
  _solve q st = (Raise e, st').
Proof.
  intros Hc HA. unfold _solve, bind at 1, get_self.
  destruct (cls st.1); [done|..]; unfold bind; by rewrite HA.
Qed.

Lemma _solve_Ainv_Ok st q h st1 :
  cls st.1 ≠ BaseSolver → Ainv st = (Ok h, st1) →
  _solve q st = apply_handle (cls st.1) h q st1.
Proof.
  intros Hc HA. unfold _solve, bind at 1, get_self.
  destruct (cls st.1); [done|..]; unfold bind; by rewrite HA.
Qed.

Lemma _solve_base st q :
  cls st.1 = BaseSolver → _solve q st = (Raise NotImplementedError, st).
Proof. intros Hc. unfold _solve, bind, get_self. by rewrite Hc. Qed.

(** One solve with a handle: one call, recorded with what it gave. *)
Lemma apply_handle_trace c h q st r st' :
  c ≠ BaseSolver →
  apply_handle c h q st = (r, st') →
  st'.1 = st.1 ∧
  ∃ ev, st'.2 = st.2 ++ [ev] ∧
        [ev.1] = solve_calls c h q ∧
        ev.2 = match r with Ok v => RetVector v | Raise e => Raised e end.
Proof.
  intros Hc. destruct c; [done|..]; simpl;
    unfold call_mul, call_run_pardiso, call_solve, native;
    intros [= <- <-]; simpl; (split; [done|]); eexists; split_and!; done.
Qed.

(** A batch with a column starts by solving column 0. *)
Lemma mul_first_column rhs st :
  0 < (batch_shape rhs).2 →
  ∃ iqs, enumerate (qIter rhs) = (0, batch_column rhs 0) :: iqs.
Proof.
  intros Hn. rewrite qIter_columns. unfold enumerate.
  rewrite length_map, length_seq.
  destruct (batch_shape rhs).2 as [|n]; [lia|]. simpl. by eexists.
Qed.

Lemma mul_first_raises rhs st e st' :
  0 < (batch_shape rhs).2 →
  _solve (batch_column rhs 0) st = (Raise e, st') →
  __mul__ rhs st = (Raise e, st').
Proof.
  intros Hn Hs. unfold __mul__.
  destruct (mul_first_column rhs st Hn) as [iqs ->].
  simpl. unfold bind at 1. by rewrite Hs.
Qed.

(** X5: an adapter whose library did not load (its class attribute
    [Solver] is [None]) raises TypeError as soon as it needs its handle: on
    [Ainv] and on the batch solve of at least one column, once a matrix is
    set. Nothing is called and the instance is left as it was. *)
Theorem solve_without_library st (A : spmatrix C) :
  _A st.1 = Some A →
  _Ainv st.1 = None →
  Registry.Solver this_module (cls st.1) = None →
  Ainv st = (Raise type_error, st) ∧
  (∀ rhs, cls st.1 ≠ BaseSolver → 0 < (batch_shape rhs).2 →
          __mul__ rhs st = (Raise type_error, st)).
Proof.
  intros HA Hh Hl.
  assert (HAinv : Ainv st = (Raise type_error, st)).
  { destruct (Ainv st) as [r st1] eqn:E.
    apply Ainv_outcome_complete in E.
    inversion E; subst; try congruence; done. }
  split; [done|]. intros rhs Hc Hn.
  apply mul_first_raises; [done|]. by apply _solve_Ainv_raises.
Qed.

(** What [Ainv] calls when it builds the handle. *)
Lemma Ainv_build_trace st h st1 :
  _Ainv st.1 = None →
  Ainv st = (Ok h, st1) →
  ∃ A lib evs,
    _A st.1 = Some A ∧
    Registry.Solver this_module (cls st.1) = Some lib ∧
    st1 = ({| cls := cls st.1; _A := Some A; _Ainv := Some h |}, st.2 ++ evs) ∧
    map fst evs = build_calls (cls st.1) lib st.1 A h.
Proof.
  intros Hh HAinv. destruct st as [[c oA oh] tr]. simpl in *. subst oh.
  destruct oA as [A|]; cycle 1.
  { by rewrite Ainv_unset in HAinv. }
  unfold Ainv, Ainv_base, Ainv_pardiso, bind, get_self, get_A, ret, raise,
    call_construct, call_run_pardiso, native, put_self in HAinv.
  destruct (Registry.Solver this_module c) as [lib|] eqn:El; cycle 1.
  { destruct c; simpl in *; rewrite ?El in HAinv; done. }
  exists A, lib.
  destruct (lib_construct tr lib
              (construct_args c lib {| cls := c; _A := Some A; _Ainv := None |} A))
    as [h'|e] eqn:Ec; cycle 1.
  { destruct c; unfold construct_args in Ec; simpl in *; try discriminate;
      rewrite El in HAinv; simpl in HAinv; by rewrite Ec in HAinv. }
  destruct c; unfold build_calls, construct_args in *; simpl in *;
    try discriminate; rewrite El in HAinv; simpl in HAinv;
    rewrite Ec in HAinv; simpl in HAinv.
  - injection HAinv as <- <-. by eexists [_].
  - destruct (lib_run_pardiso _ h' 12 None) as [x|e] eqn:Er; [|done].
    injection HAinv as <- <-. rewrite <- app_assoc. by eexists [_; _].
  - injection HAinv as <- <-. by eexists [_].
Qed.

(** X6: the first solve of an instance (no handle yet) that returns has
    built the handle from the matrix then set and made, in this order, the
    calls of its class: the call of what [self.Solver] gives (on the matrix
    for MUMPS, on the matrix and the matrix type 13 for MKL PARDISO,
    followed by phase 12, and on the instance and the matrix for SuperLU,
    whose [splu] comes bound to the instance) and then one solve call on
    the new handle (multiplication for MUMPS, phase 33 for MKL PARDISO,
    [solve] for SuperLU). The handle is left in the cache. *)
Theorem first_solve_calls st q v st' :
  _Ainv st.1 = None →
  _solve q st = (Ok v, st') →
  ∃ A lib h evs,
    _A st.1 = Some A ∧
    Registry.Solver this_module (cls st.1) = Some lib ∧
    st'.1 = {| cls := cls st.1; _A := Some A; _Ainv := Some h |} ∧
    st'.2 = st.2 ++ evs ∧
    map fst evs =
      build_calls (cls st.1) lib st.1 A h ++ solve_calls (cls st.1) h q.
Proof.
  intros Hh Hs.
  destruct (decide (cls st.1 = BaseSolver)) as [Hc|Hc].
  { by rewrite _solve_base in Hs. }
  destruct (Ainv st) as [[h|e] st1] eqn:EA; cycle 1.
  { by rewrite (_solve_Ainv_raises st q e st1) in Hs. }
  rewrite (_solve_Ainv_Ok st q h st1) in Hs by done.
  destruct (Ainv_build_trace st h st1 Hh EA) as (A & lib & evs & HA & Hl & -> & Hev).
  apply apply_handle_trace in Hs as (Hself & ev & Htr & Hcall & _); [|done].
  simpl in Hself, Htr. exists A, lib, h, (evs ++ [ev]). split_and!; try done.
  - by rewrite Htr, app_assoc.
  - rewrite map_app. f_equal; [exact Hev|]. by rewrite <- Hcall.
Qed.

Lemma zip_seq_map_snd {X Y} (g : X → Y) (l : list X) (a : nat) :
  map (λ iq : nat * X, g iq.2) (zip (seq a (length l)) l) = map g l.
Proof.
  revert a. induction l as [|x l IH]; intros a; simpl; [done|].
  by rewrite IH.
Qed.

(** The loop with a handle in the cache. *)
Lemma mul_loop_cached_calls (iqs : list (nat * vector C)) :
  ∀ (result : ndarray C) st h R st',
    _Ainv st.1 = Some h →
    mul_loop iqs result st = (Ok R, st') →
    st'.1 = st.1 ∧
    ∃ evs, st'.2 = st.2 ++ evs ∧
           map fst evs = concat (map (λ iq, solve_calls (cls st.1) h iq.2) iqs) ∧
           Forall (λ e, has_raised e = false) evs.
Proof.
  induction iqs as [|[i q] iqs IH]; intros result st h R st' Hh Hloop.
  - simpl in Hloop. injection Hloop as <- <-. split; [done|].
    exists []. by rewrite app_nil_r.
  - simpl in Hloop. unfold bind at 1 in Hloop.
    rewrite (_solve_cached st h q Hh) in Hloop.
    destruct (decide (cls st.1 = BaseSolver)) as [Hc|Hc].
    { rewrite Hc in Hloop. done. }
    destruct (apply_handle (cls st.1) h q st) as [[v|e] st1] eqn:Ea; [|done].
    apply apply_handle_trace in Ea as (Hself & ev & Htr & Hcall & Hret); [|done].
    unfold bind at 1, lift in Hloop.
    destruct (setcol result i v) as [result'|e]; [|done].
    destruct (IH result' st1 h R st') as (Hself' & evs & Htr' & Hcalls & Hok).
    { by rewrite Hself. } { done. }
    split; [congruence|]. exists (ev :: evs). split_and!.
    + rewrite Htr', Htr, <- app_assoc. done.
    + simpl. rewrite Hcalls, Hself, <- Hcall. done.
    + apply Forall_cons. split; [|done]. unfold has_raised. by rewrite Hret.
Qed.

(** X7: with a handle in the cache, a batch solve that returns has made
    exactly one library call per column, in the order of the columns, each
    the solve call of its class on the cached handle and on that column;
    none raised, none is a construction, and the instance is unchanged. *)
Theorem mul_cached_calls rhs st h R st' :
  _Ainv st.1 = Some h →
  __mul__ rhs st = (Ok R, st') →
  st'.1 = st.1 ∧
  ∃ evs, st'.2 = st.2 ++ evs ∧
         map fst evs =
           concat (map (λ j, solve_calls (cls st.1) h (batch_column rhs j))
                       (seq 0 (batch_shape rhs).2)) ∧
         Forall (λ e, has_raised e = false) evs.
Proof.
  intros Hh Hmul. unfold __mul__ in Hmul.
  apply (mul_loop_cached_calls _ _ st h) in Hmul as (Hself & evs & Htr & Hc & Hok);
    [|done].
  split; [done|]. exists evs. split_and!; try done.
  rewrite Hc. f_equal. unfold enumerate.
  rewrite (zip_seq_map_snd (solve_calls (cls st.1) h)).
  by rewrite qIter_columns, map_map.
Qed.

End SolveFacts.

(** ** Failures, release and what stays put *)

Section LifeFacts.
Context {C Handle : Type} {SC : Scalar C} {RT : Runtime C Handle}.

Implicit Types (st : state C Handle) (self : instance C Handle).
Implicit Types (h : Handle) (q v : vector C) (rhs : batch C).

Lemma mul_loop_app (iqs1 iqs2 : list (nat * vector C)) :
  ∀ (result : ndarray C) st,
    mul_loop (iqs1 ++ iqs2) result st =
    (R <- mul_loop iqs1 result ;; mul_loop iqs2 R) st.
Proof.
  induction iqs1 as [|[i q] iqs1 IH]; intros result st; simpl; [done|].
  unfold bind, lift in *.
  destruct (_solve q st) as [[v|e] st1]; [|done].
  destruct (setcol result i v) as [result'|e]; [|done].
  apply IH.
Qed.

Lemma zip_seq_app {X} (l1 l2 : list X) (a : nat) :
  zip (seq a (length (l1 ++ l2))) (l1 ++ l2) =
  zip (seq a (length l1)) l1 ++ zip (seq (a + length l1) (length l2)) l2.
Proof.
  revert a. induction l1 as [|x l1 IH]; intros a; simpl.
  - by rewrite Nat.add_0_r.
  - rewrite IH. by replace (a + S (length l1)) with (S a + length l1) by lia.
Qed.

(** X8: when the solves of columns 0 to k-1 return fitting vectors and the
    solve of column k raises, the batch solve raises that exception; the
    instance and the record of calls are as the failing solve left them, so
    no later column is solved. *)
Theorem mul_stops_at_failure rhs (k : nat) st (vs : list (vector C)) st1 e st2 :
  k < (batch_shape rhs).2 →
  solve_each (map (batch_column rhs) (seq 0 k)) st = (Ok vs, st1) →
  Forall (λ v, length v = (batch_shape rhs).1) vs →
  _solve (batch_column rhs k) st1 = (Raise e, st2) →
  __mul__ rhs st = (Raise e, st2).
Proof.
  intros Hk Hsolve Hlen Hfail. unfold __mul__, enumerate.
  rewrite qIter_columns.
  replace (batch_shape rhs).2 with (k + S ((batch_shape rhs).2 - S k)) at 1 2
    by lia.
  rewrite seq_app, map_app, zip_seq_app, mul_loop_app. simpl.
  destruct (mul_loop_columns (map (batch_column rhs) (seq 0 k)) 0
              (np_empty uninit (batch_shape rhs)) st vs st1)
    as (R & Hloop & _); try done.
  { apply wf_np_empty. }
  { simpl. rewrite length_map, length_seq. lia. }
  unfold bind at 1. rewrite Hloop. unfold bind at 1. by rewrite Hfail.
Qed.

(** X9: when the constructor of MKL PARDISO returns a handle and the
    analysis and factorization phase (12) raises, [Ainv] raises that
    exception with the handle already in the cache: the next access returns
    the handle without running phase 12 again, and the next solve goes
    straight to phase 33 on it. *)
Theorem pardiso_failed_phase_is_cached st (A : spmatrix C) lib h e :
  cls st.1 = MKLPardisoSolver →
  _A st.1 = Some A →
  _Ainv st.1 = None →
  Registry.Solver this_module MKLPardisoSolver = Some lib →
  lib_construct st.2 lib (construct_args MKLPardisoSolver lib st.1 A) = Ok h →
  lib_run_pardiso
    (st.2 ++ [(Construct lib (construct_args MKLPardisoSolver lib st.1 A),
               RetHandle h)]) h 12 None
    = Raise e →
  ∃ st1,
    Ainv st = (Raise e, st1) ∧
    st1 = ({| cls := MKLPardisoSolver; _A := Some A; _Ainv := Some h |},
           st.2 ++ [(Construct lib (construct_args MKLPardisoSolver lib st.1 A),
                     RetHandle h);
                    (RunPardiso h 12 None, Raised e)]) ∧
    Ainv st1 = (Ok h, st1) ∧
    ∀ q, _solve q st1 = call_run_pardiso h 33 (Some q) st1.
Proof.
  intros Hc HA Hh Hl Hcon Hrun. destruct st as [[c oA oh] tr].
  simpl in *. subst c oA oh. unfold construct_args in *. eexists. split_and!.
  - unfold Ainv, Ainv_pardiso, bind, get_self, get_A, ret, raise,
      call_construct, call_run_pardiso, native, put_self. simpl.
    rewrite Hl. simpl. rewrite Hcon. simpl. rewrite Hrun.
    rewrite <- app_assoc. reflexivity.
  - reflexivity.
  - by apply Ainv_cached.
  - intros q. by rewrite (_solve_cached _ h).
Qed.

(** [__del__] does nothing at all, and calls nothing, on an instance of
    another class than MKLPardisoSolver and on one without a handle. *)
Lemma del_without_handle st :
  cls st.1 ≠ MKLPardisoSolver ∨ _Ainv st.1 = None →
  __del__ st = (Ok tt, st).
Proof.
  intros H. unfold __del__, bind, get_self.
  destruct (cls st.1) eqn:Ec; try done.
  destruct H as [H|H]; [done|]. by rewrite H.
Qed.

Lemma del_with_handle st h :
  cls st.1 = MKLPardisoSolver →
  _Ainv st.1 = Some h →
  match lib_run_pardiso st.2 h (-1) None with
  | Ok x =>
      let st' := ({| cls := cls st.1; _A := _A st.1; _Ainv := None |},
                  st.2 ++ [(RunPardiso h (-1) None, RetVector x)]) in
      __del__ st = (Ok tt, st') ∧ __del__ st' = (Ok tt, st')
  | Raise e =>
      __del__ st = (Raise e, (st.1, st.2 ++ [(RunPardiso h (-1) None, Raised e)]))
  end.
Proof.
  intros Hc Hh. destruct st as [[c oA oh] tr]. simpl in *. subst c oh.
  unfold __del__, bind, get_self, call_run_pardiso, native, put_self. simpl.
  by destruct (lib_run_pardiso tr h (-1) None).
Qed.

(** X11: on an MKLPardisoSolver with a handle, [__del__] runs the release
    phase (-1) once; when that returns the handle is dropped, and a second
    [__del__] then does nothing; when it raises, the exception propagates
    and the handle stays in the cache. *)
Theorem del_releases_handle st h :
  cls st.1 = MKLPardisoSolver →
  _Ainv st.1 = Some h →
  match lib_run_pardiso st.2 h (-1) None with
  | Ok x =>
      let st' := ({| cls := cls st.1; _A := _A st.1; _Ainv := None |},
                  st.2 ++ [(RunPardiso h (-1) None, RetVector x)]) in
      __del__ st = (Ok tt, st') ∧ __del__ st' = (Ok tt, st')
  | Raise e =>
      __del__ st = (Raise e, (st.1, st.2 ++ [(RunPardiso h (-1) None, Raised e)]))
  end.
Proof.
  intros Hc Hh. destruct st as [[c oA oh] tr]. simpl in *. subst c oh.
  unfold __del__, bind, get_self, call_run_pardiso, native, put_self. simpl.
  by destruct (lib_run_pardiso tr h (-1) None).
Qed.

(** X10: [__del__] is idempotent: once it has returned, the instance of
    an MKLPardisoSolver has no handle, the matrix is as before, and calling
    [__del__] again changes nothing and calls nothing. *)
Theorem del_idempotent st st' :
  __del__ st = (Ok tt, st') →
  __del__ st' = (Ok tt, st') ∧
  (cls st.1 = MKLPardisoSolver → _Ainv st'.1 = None) ∧
  cls st'.1 = cls st.1 ∧
  _A st'.1 = _A st.1.
Proof.
  intros Hdel.
  destruct (decide (cls st.1 = MKLPardisoSolver)) as [Hc|Hc]; cycle 1.
  { rewrite del_without_handle in Hdel by auto. injection Hdel as <-.
    split; [apply del_without_handle; auto|done]. }
  destruct (_Ainv st.1) as [h|] eqn:Hh; cycle 1.
  { rewrite del_without_handle in Hdel by auto. injection Hdel as <-.
    split; [apply del_without_handle; auto|done]. }
  pose proof (del_with_handle st h Hc Hh) as H.
  destruct (lib_run_pardiso st.2 h (-1) None) as [x|e].
  - destruct H as [H1 H2]. rewrite H1 in Hdel. injection Hdel as <-.
    split; [done|]. done.
  - rewrite H in Hdel. done.
Qed.

(** *** What a batch solve leaves alone *)

Lemma framed_kept_by_Ainv c (oA : option (spmatrix C)) (oh : option Handle)
    (tr : list (event C Handle)) :
  preserves (framed c oA oh tr) Ainv.
Proof.
  intros st (Hc & HA & Hh & Htr).
  destruct (Ainv st) as [r st1] eqn:E. simpl.
  apply Ainv_outcome_complete in E.
  inversion E as [| | |A lib e ? ? ? ?|A lib h r' tail Hnone HA' ? ? ? ? ?];
    subst; try done.
  - split_and!; try done. simpl. by apply prefix_app_r.
  - split_and!; simpl; try done.
    + intros h' ->. specialize (Hh h' eq_refl). congruence.
    + by apply prefix_app_r.
Qed.

Lemma framed_stable c (oA : option (spmatrix C)) (oh : option Handle)
    (tr : list (event C Handle)) :
  solve_stable (framed c oA oh tr).
Proof.
  intros self tr' e _ _ (Hc & HA & Hh & Htr). split_and!; try done.
  simpl in *. by apply prefix_app_r.
Qed.

(** X12: whether it returns or raises, a batch solve keeps the class and
    the matrix of the instance, keeps a handle that was in the cache, and
    only adds to the record of calls. *)
Theorem mul_frame rhs st :
  framed (cls st.1) (_A st.1) (_Ainv st.1) st.2 (__mul__ rhs st).2.
Proof.
  unfold __mul__.
  apply preserves_mul_loop.
  - apply framed_stable.
  - apply framed_kept_by_Ainv.
  - by split_and!.
Qed.

(** *** The matrix, once set *)

Lemma has_matrix_kept os st : has_matrix st → has_matrix (run_ops os st).
Proof.
  apply run_ops_preserves.
  - intros self tr e _ _ H. exact H.
  - intros st0 H. destruct (Ainv st0) as [r st1] eqn:E. simpl.
    apply Ainv_outcome_complete in E.
    inversion E; subst; try done. by eexists.
  - intros A st0 [A0 H0]. unfold has_matrix.
    destruct (set_A_frame st0 A) as (_ & _ & _ & HA).
    destruct (_A (set_A A st0).2.1) eqn:E1; [by eexists|].
    destruct HA; [by rewrite H0|done].
  - intros st0 H.
    destruct (del_cases st0) as [->|[(h & x & _ & _ & ->)|(h & e & _ & _ & ->)]];
      done.
Qed.

(** X13: over the life of an instance its class never changes, a handle
    is never in the cache without a matrix being set, and a matrix once set
    stays set, so that the getter of [A] returns from then on. *)
Theorem instance_invariants c (A0 : pyval C) self (os : list op) st :
  new c A0 = Ok self →
  st = run_ops os (self, []) →
  cls st.1 = c ∧
  (is_Some (_Ainv st.1) → is_Some (_A st.1)) ∧
  (is_Some (_A st.1) →
   ∀ os', ∃ A, get_A (run_ops os' st) = (Ok A, run_ops os' st)).
Proof.
  intros Hnew ->. apply new_Ok in Hnew as [Hcls Hnone].
  assert (Hc : consistent c (run_ops os (self, []))).
  { apply consistent_kept. split; simpl; [done|]. by rewrite Hnone. }
  destruct Hc as [Hc Hh]. split_and!; [done| |].
  - intros [h Hsome]. destruct (_A _) eqn:E; [by eexists|].
    rewrite Hh in Hsome; done.
  - intros Hm os'.
    destruct (has_matrix_kept os' _ Hm) as [A HA].
    exists A. by apply get_A_set.
Qed.

(** X14: reading back what the setter was given: after a sparse matrix is
    set, the getter returns that very matrix and [shape] its shape
    transposed, whatever was set before; a value that is [None] or is
    refused leaves the whole state as it was. *)
Theorem get_A_after_set_A st (v : pyval C) :
  (∀ B : spmatrix C, v = PyArray (Sparse B) →
     get_A (set_A v st).2 = (Ok B, (set_A v st).2) ∧
     shape (set_A v st).2 = (Ok (prod_swap (sp_shape B)), (set_A v st).2)) ∧
  (is_spmatrix v = false → (set_A v st).2 = st).
Proof.
  split.
  - intros B ->. rewrite set_A_sparse. simpl. split.
    + by apply get_A_set.
    + unfold shape, bind. by rewrite (get_A_set _ B).
  - intros Hs. by destruct v as [|[|]|].
Qed.

(** X15: building an instance: without argument or with [None] it has
    neither matrix nor handle; with a sparse matrix it has that matrix and
    no handle; with anything else the constructor raises the exception of
    the setter and there is no instance. *)
Theorem new_cases c :
  new (Handle:=Handle) c (PyNone (C:=C)) = Ok (blank c) ∧
  (∀ A : spmatrix C,
     new (Handle:=Handle) c (PyArray (Sparse A))
     = Ok {| cls := c; _A := Some A; _Ainv := None |}) ∧
  (∀ v : pyval C, v ≠ PyNone → is_spmatrix v = false →
     new (Handle:=Handle) c v =
       Raise (Exception ("Class " +:+ class_name c
                         +:+ " can only register SciPy sparse matrices"))).
Proof.
  split_and!; [done|done|].
  intros v Hn Hs. by destruct v as [|[|]|].
Qed.

End LifeFacts.

(** ** Fresh memory *)

Section MemoryFacts.
Context {C Handle : Type} {SC : Scalar C} {RT : Runtime C Handle}.

(** Two well-formed arrays of one shape with the same columns are equal. *)
Lemma ndarray_ext (a b : ndarray C) :
  wf_ndarray a → wf_ndarray b →
  nd_shape a = nd_shape b →
  (∀ j, j < (nd_shape a).2 → column a j = column b j) →
  a = b.
Proof.
  destruct a as [sh rows], b as [sh' rows']. simpl.
  intros [Hm Hn] [Hm' Hn'] <- Hcol. simpl in *. f_equal.
  apply list_eq_same_length with sh.1; [done|done|].
  intros i row row' Hi Hrow Hrow'.
  pose proof (Forall_lookup_1 _ _ _ _ Hn Hrow) as Hlen.
  pose proof (Forall_lookup_1 _ _ _ _ Hn' Hrow') as Hlen'.
  simpl in Hlen, Hlen'.
  apply list_eq_same_length with sh.2; [done|done|].
  intros j x y Hj Hx Hy.
  specialize (Hcol j Hj). unfold column in Hcol. simpl in Hcol.
  assert (Hi' : map (λ row, default zero (row !! j)) rows !! i
                = map (λ row, default zero (row !! j)) rows' !! i)
    by (by rewrite Hcol).
  rewrite !list_lookup_fmap, Hrow, Hrow' in Hi'. simpl in Hi'.
  rewrite Hx, Hy in Hi'. simpl in Hi'. by injection Hi'.
Qed.

(** X16: what [np.empty] found in memory never shows: when the solves of
    the columns return fitting vectors, the batch solve gives the same
    result, instance and record of calls whatever the contents of the
    freshly allocated array. *)
Theorem mul_ignores_fresh_memory (u : nat → nat → C) (rhs : batch C)
    (st st' : state C Handle) (vs : list (vector C)) :
  solve_each (map (batch_column rhs) (seq 0 (batch_shape rhs).2)) st
    = (Ok vs, st') →
  Forall (λ v, length v = (batch_shape rhs).1) vs →
  __mul__ (RT:=with_uninit u) rhs st = __mul__ (RT:=RT) rhs st.
Proof.
  intros Hsolve Hlen. rewrite <- qIter_columns in Hsolve.
  change (__mul__ (RT:=with_uninit u) rhs st)
    with (mul_loop (enumerate (qIter rhs)) (np_empty u (batch_shape rhs)) st).
  unfold __mul__, enumerate.
  destruct (mul_loop_columns (qIter rhs) 0
              (np_empty u (batch_shape rhs)) st vs st')
    as (R & -> & Hsh & Hwf & Hcols & _); try done.
  { apply wf_np_empty. } { simpl. by rewrite length_qIter. }
  destruct (mul_loop_columns (qIter rhs) 0
              (np_empty uninit (batch_shape rhs)) st vs st')
    as (R' & -> & Hsh' & Hwf' & Hcols' & _); try done.
  { apply wf_np_empty. } { simpl. by rewrite length_qIter. }
  do 2 f_equal. apply ndarray_ext; try done.
  - by rewrite Hsh, Hsh'.
  - intros j Hj. rewrite Hsh in Hj. simpl in Hj.
    rewrite <- length_qIter in Hj.
    specialize (Hcols j Hj). specialize (Hcols' j Hj). simpl in *. congruence.
Qed.

End MemoryFacts.

(** ** The further properties on the test doubles *)

Lemma load_module_without_backend_witness :
  Registry.load_module nothing_installed
  = Raise (ImportError "Problemo: could not load backend").
Proof.
  apply (load_module_without_backend nothing_installed); reflexivity.
Defined.

Example broken_pyMKL_stops_the_import :
  Registry.load_module
    {| Registry.env_prelude := Registry.Imported;
       Registry.env_pymatsolver := Registry.ImportRaises SyntaxError;
       Registry.env_pyMKL := Registry.ImportRaises SyntaxError;
       Registry.env_splu := Registry.Imported |}
  = Raise SyntaxError.
Proof. reflexivity. Qed.

Lemma adapter_has_library_iff_available_witness :
  Registry.load_module only_splu = Ok module_only_splu ∧
  (∀ id c, Registry.adapter_of id = Some c →
           Registry.Solver module_only_splu c =
             if Registry.available only_splu id then library_of id else None) ∧
  is_Some (Registry.Solver module_only_splu
             (Registry.BestSolver module_only_splu)) ∧
  Registry.Solver module_only_splu BaseSolver = None.
Proof.
  split; [reflexivity|].
  apply (adapter_has_library_iff_available only_splu module_only_splu).
  reflexivity.
Defined.

Lemma solve_without_library_witness :
  Ainv (RT:=splu_only_runtime) (mumps22, []) = (Raise type_error, (mumps22, [])) ∧
  (∀ rhs, MumpsSolver ≠ BaseSolver → 0 < (batch_shape rhs).2 →
          __mul__ (RT:=splu_only_runtime) rhs (mumps22, [])
          = (Raise type_error, (mumps22, []))).
Proof.
  apply (solve_without_library (RT:=splu_only_runtime) (mumps22, []) A22);
    reflexivity.
Defined.

Lemma first_solve_calls_witness :
  ∃ A lib h evs,
    _A pardiso22 = Some A ∧
    Registry.Solver module_all_loaded MKLPardisoSolver = Some lib ∧
    (_solve (RT:=doubling) [1; 0]%Z (pardiso22, [])).2.1
      = {| cls := MKLPardisoSolver; _A := Some A; _Ainv := Some h |} ∧
    (_solve (RT:=doubling) [1; 0]%Z (pardiso22, [])).2.2 = [] ++ evs ∧
    map fst evs =
      build_calls MKLPardisoSolver lib pardiso22 A h
      ++ solve_calls MKLPardisoSolver h [1; 0]%Z.
Proof.
  apply (first_solve_calls (RT:=doubling) (pardiso22, []) [1; 0]%Z [2; 0]%Z
           (_solve (RT:=doubling) [1; 0]%Z (pardiso22, [])).2);
    reflexivity.
Defined.

Example first_solve_of_pardiso :
  map fst (_solve (RT:=doubling) [1; 0]%Z (pardiso22, [])).2.2 =
    [Construct pyMKL_pardisoSolver [ArgMatrix A22; ArgInt 13];
     RunPardiso 0 12 None;
     RunPardiso 0 33 (Some [1; 0]%Z)].
Proof. reflexivity. Qed.

Example first_solve_of_superlu :
  map fst (_solve (RT:=doubling) [1; 0]%Z (superlu22, [])).2.2 =
    [Construct scipy_splu [ArgSelf superlu22; ArgMatrix A22];
     HandleSolve 0 [1; 0]%Z].
Proof. reflexivity. Qed.

Example first_solve_of_mumps :
  map fst (_solve (RT:=doubling) [1; 0]%Z (mumps22, [])).2.2 =
    [Construct pymatsolver_MumpsSolver [ArgMatrix A22];
     HandleMul 0 [1; 0]%Z].
Proof. reflexivity. Qed.

Lemma mul_cached_calls_witness :
  (__mul__ (RT:=doubling) (Dense rhs_dense)
     ({| cls := SuperLUSolver; _A := Some A22; _Ainv := Some 7 |}, [])).2.1
  = {| cls := SuperLUSolver; _A := Some A22; _Ainv := Some 7 |} ∧
  ∃ evs,
    (__mul__ (RT:=doubling) (Dense rhs_dense)
       ({| cls := SuperLUSolver; _A := Some A22; _Ainv := Some 7 |}, [])).2.2
    = [] ++ evs ∧
    map fst evs =
      concat (map (λ j, solve_calls SuperLUSolver 7
                          (batch_column (Dense rhs_dense) j)) (seq 0 2)) ∧
    Forall (λ e, has_raised e = false) evs.
Proof.
  apply (mul_cached_calls (RT:=doubling) (Dense rhs_dense)
           ({| cls := SuperLUSolver; _A := Some A22; _Ainv := Some 7 |}, []) 7
           {| nd_shape := (2, 2); nd_rows := [[2; 0]; [0; 8]]%Z |});
    reflexivity.
Defined.

Lemma mul_stops_at_failure_witness :
  __mul__ (RT:=picky) (Dense rhs_dense) (superlu22, []) =
    (Raise (NativeError 3),
     (_solve (RT:=picky) [0; 4]%Z
        (solve_each (RT:=picky) [[1; 0]%Z] (superlu22, [])).2).2).
Proof.
  apply (mul_stops_at_failure (RT:=picky) (Dense rhs_dense) 1 (superlu22, [])
           [[2; 0]%Z] (solve_each (RT:=picky) [[1; 0]%Z] (superlu22, [])).2).
  - simpl. lia.
  - reflexivity.
  - repeat constructor.
  - reflexivity.
Defined.

Lemma pardiso_failed_phase_is_cached_witness :
  ∃ st1,
    Ainv (RT:=phase12_fails) (pardiso22, []) = (Raise (NativeError (-4)), st1) ∧
    st1 = ({| cls := MKLPardisoSolver; _A := Some A22; _Ainv := Some 0 |},
           [] ++ [(Construct pyMKL_pardisoSolver [ArgMatrix A22; ArgInt 13],
                   RetHandle 0);
                  (RunPardiso 0 12 None, Raised (NativeError (-4)))]) ∧
    Ainv (RT:=phase12_fails) st1 = (Ok 0, st1) ∧
    ∀ q, _solve (RT:=phase12_fails) q st1
         = call_run_pardiso (RT:=phase12_fails) 0 33 (Some q) st1.
Proof.
  apply (pardiso_failed_phase_is_cached (RT:=phase12_fails) (pardiso22, [])
           A22 pyMKL_pardisoSolver 0 (NativeError (-4)));
    reflexivity.
Defined.

Lemma del_idempotent_witness :
  __del__ (RT:=doubling)
    ({| cls := MKLPardisoSolver; _A := Some A22; _Ainv := None |},
     [(RunPardiso 7 (-1) None, RetVector [])])
  = (Ok tt, ({| cls := MKLPardisoSolver; _A := Some A22; _Ainv := None |},
             [(RunPardiso 7 (-1) None, RetVector [])])) ∧
  (MKLPardisoSolver = MKLPardisoSolver →
   _Ainv {| cls := MKLPardisoSolver; _A := Some A22; _Ainv := @None nat |} = None) ∧
  MKLPardisoSolver = MKLPardisoSolver ∧
  Some A22 = Some A22.
Proof.
  apply (del_idempotent (RT:=doubling)
           ({| cls := MKLPardisoSolver; _A := Some A22; _Ainv := Some 7 |}, [])
           ({| cls := MKLPardisoSolver; _A := Some A22; _Ainv := None |},
            [(RunPardiso 7 (-1) None, RetVector [])])).
  reflexivity.
Defined.

Lemma del_releases_handle_witness :
  __del__ (RT:=doubling)
    ({| cls := MKLPardisoSolver; _A := Some A22; _Ainv := Some 7 |}, [])
  = (Ok tt, ({| cls := MKLPardisoSolver; _A := Some A22; _Ainv := None |},
             [(RunPardiso 7 (-1) None, RetVector [])])) ∧
  __del__ (RT:=doubling)
    ({| cls := MKLPardisoSolver; _A := Some A22; _Ainv := None |},
     [(RunPardiso 7 (-1) None, RetVector [])])
  = (Ok tt, ({| cls := MKLPardisoSolver; _A := Some A22; _Ainv := None |},
             [(RunPardiso 7 (-1) None, RetVector [])])).
Proof.
  apply (del_releases_handle (RT:=doubling)
           ({| cls := MKLPardisoSolver; _A := Some A22; _Ainv := Some 7 |}, [])
           7); reflexivity.
Defined.

Lemma instance_invariants_witness :
  new SuperLUSolver (PyArray (Sparse A22)) = Ok superlu22 ∧
  cls (run_ops (RT:=doubling)
         [Mul (Dense rhs_dense); SetA (PyObject "int"); SetA PyNone]
         (superlu22, [])).1 = SuperLUSolver.
Proof.
  split; [reflexivity|].
  apply (instance_invariants (RT:=doubling) SuperLUSolver
           (PyArray (Sparse A22)) superlu22
           [Mul (Dense rhs_dense); SetA (PyObject "int"); SetA PyNone] _
           eq_refl eq_refl).
Defined.

Lemma mul_ignores_fresh_memory_witness :
  __mul__ (RT:=with_uninit (RT:=doubling) (λ i j, 99%Z)) (Dense rhs_dense)
    (superlu22, [])
  = __mul__ (RT:=doubling) (Dense rhs_dense) (superlu22, []).
Proof.
  apply (mul_ignores_fresh_memory (RT:=doubling) (λ i j, 99%Z)
           (Dense rhs_dense) (superlu22, [])
           (solve_each (RT:=doubling)
              (map (batch_column (Dense rhs_dense)) (seq 0 2))
              (superlu22, [])).2
           [[2; 0]; [0; 8]]%Z).
  - reflexivity.
  - repeat constructor.
Defined.
